(** * The temporal index of the crawler's database (src/database/index.ts)

    A shallow embedding of the [DB] class: the key codec, the two ordered
    Level stores (tracks and changes), the read queries and the write
    operations, followed by the properties established about them. *)

From Stdlib Require Import String Ascii List Bool Arith NArith Lia.
From Stdlib Require Import Decimal DecimalFacts DecimalPos DecimalN DecimalString.
From Stdlib Require Import Sorted.
Import ListNotations.

Local Open Scope list_scope.
Local Open Scope string_scope.

(** ** Results of fallible calls *)

(** What a call can throw.  [Error] is a plain [new Error(message)];
    [LEVEL_NOT_FOUND] is the error whose [code] is set to that string;
    [TypeError] is what the engine raises on a property read of
    [undefined]. *)
Inductive error : Type :=
| Error (message : string)
| LEVEL_NOT_FOUND (message : string)
| TypeError (message : string).

Inductive result (A : Type) : Type :=
| Ok (a : A)
| Throw (e : error).

Arguments Ok {A} a.
Arguments Throw {A} e.

(** ** Strings as the store compares them *)

(** Keys are ASCII strings; Level orders them byte-wise and JS compares
    them by code unit, which on such strings are both [String.compare]. *)
Definition str_le (a b : string) : bool := String.leb a b.
Definition str_lt (a b : string) : bool := String.ltb a b.

(** [String.prototype.split] on a one-character separator: always at least
    one segment. *)
Fixpoint split (sep : ascii) (s : string) : list string :=
  match s with
  | EmptyString => [EmptyString]
  | String c s' =>
      if Ascii.eqb c sep then EmptyString :: split sep s'
      else match split sep s' with
           | [] => [String c EmptyString]
           | seg :: segs => String c seg :: segs
           end
  end.

(** [String.prototype.padStart] with a one-character filler. *)
Fixpoint repeat_char (c : ascii) (n : nat) : string :=
  match n with
  | O => EmptyString
  | S n' => String c (repeat_char c n')
  end.

Definition padStart (s : string) (target : nat) (c : ascii) : string :=
  repeat_char c (target - String.length s) ++ s.

(** A template literal prints [undefined] as the word. *)
Definition tpl (x : option string) : string :=
  match x with
  | Some s => s
  | None => "undefined"
  end.

(** [x || ''] *)
Definition or_empty (x : option string) : string :=
  match x with
  | Some s => s
  | None => ""
  end.

(** [x ?? d] *)
Definition nullish {A : Type} (x : option A) (d : A) : A :=
  match x with
  | Some a => a
  | None => d
  end.

(** Truthiness of a possibly missing string. *)
Definition truthy (x : option string) : bool :=
  match x with
  | Some s => negb (String.eqb s "")
  | None => false
  end.

(** [a <= b] where [a] may be [undefined] and [b] is a string: the
    comparison with [undefined] is false. *)
Definition js_le (a : option string) (b : string) : bool :=
  match a with
  | Some s => str_le s b
  | None => false
  end.

(** ** Numbers written in decimal *)

(** [Number(s)] for a run of decimal digits (the empty run is 0), and
    [toString] of a non-negative integer.  Ten digits are far below 2^53,
    where the conversion is exact. *)
Definition Number (s : string) : option N :=
  option_map N.of_uint (NilEmpty.uint_of_string s).

Definition toString (n : N) : string :=
  NilEmpty.string_of_uint (N.to_uint n).

(** The numeric value used to state sentences about block numbers. *)
Definition block_value (s : string) : N :=
  match Number s with
  | Some n => n
  | None => 0
  end.

Definition is_digit (c : ascii) : bool :=
  (("0" <=? c) && (c <=? "9"))%char.

Fixpoint all_digits (s : string) : bool :=
  match s with
  | EmptyString => true
  | String c s' => is_digit c && all_digits s'
  end.

(** A canonical decimal numeral: ["0"], or digits that do not start
    with 0. *)
Definition canonical (s : string) : bool :=
  match s with
  | EmptyString => false
  | String c s' =>
      all_digits s && (negb (Ascii.eqb c "0") || String.eqb s' "")
  end.

(** ** Data model *)

(** [Datum] and [Partial<Datum>]; [None] is a field that is [undefined]. *)
Record Datum : Type := mkDatum {
  chainId : option string;
  address : option string;
  tokenId : option string;
  blockNumber : option string
}.

(** The stored payload, as the JSON text the store keeps. *)
Definition Track : Type := string.

Record ReturnValue : Type := mkReturnValue {
  id : Datum;
  value : Track
}.

(** ** Key codec *)

Definition MAX_LENGTH : nat := 10.

Definition datumToKey (datum : Datum) : string :=
  or_empty (chainId datum) ++ "/" ++ or_empty (address datum) ++ "/" ++
  or_empty (tokenId datum) ++ "/" ++ or_empty (blockNumber datum).

Definition keyToDatum (key : string) : Datum :=
  let segs := split "/" key in
  {| chainId := nth_error segs 0;
     address := nth_error segs 1;
     tokenId := nth_error segs 2;
     blockNumber := nth_error segs 3 |}.

Definition encodeNumber (num : string) : result string :=
  if (MAX_LENGTH <? String.length num)%nat
  then Throw (Error "Database cannot encode number greater than 10 digits")
  else Ok (padStart num MAX_LENGTH "0").

(** [Number(num).toString()] on runs of decimal digits, which is what
    [encodeNumber] leaves in a marker for a decimal block number: the value
    is printed without leading zeros, exactly so below 2^53 (ten digits
    always are).  Other strings are outside this fragment (JS also reads
    exponents, hexadecimal, signs and blanks, and rounds above 2^53); the
    model prints NaN for them, and the statements that depend on the printed
    text are restricted to ten-digit markers. *)
Definition decodeNumber (num : string) : string :=
  match Number num with
  | Some n => toString n
  | None => "NaN"
  end.

(** [datum.blockNumber] is read with [.length] inside [encodeNumber]:
    an [undefined] block number is a [TypeError]. *)
Definition datumToChangeKey (datum : Datum) : result string :=
  match blockNumber datum with
  | None => Throw (TypeError "Cannot read properties of undefined")
  | Some b =>
      match encodeNumber b with
      | Throw e => Throw e
      | Ok enc =>
          Ok (enc ++ "/" ++ tpl (chainId datum) ++ "/" ++
              tpl (address datum) ++ "/" ++ tpl (tokenId datum))
      end
  end.

(** ** The ordered store *)

(** A Level database: its entries, kept in ascending key order. *)
Definition Level (V : Type) : Type := list (string * V).

Fixpoint level_put {V : Type} (db : Level V) (key : string) (v : V) : Level V :=
  match db with
  | [] => [(key, v)]
  | (k, w) :: db' =>
      match String.compare key k with
      | Lt => (key, v) :: db
      | Eq => (key, v) :: db'
      | Gt => (k, w) :: level_put db' key v
      end
  end.

(** Deleting a key that is not there is not an error in Level (the
    repository's own test deletes from a cleared store and expects no
    throw). *)
Definition level_del {V : Type} (db : Level V) (key : string) : Level V :=
  filter (fun kv => negb (String.eqb (fst kv) key)) db.

Definition level_get {V : Type} (db : Level V) (key : string) : option V :=
  option_map snd (find (fun kv => String.eqb (fst kv) key) db).

Definition keys {V : Type} (db : Level V) : list string := map fst db.

Record IteratorOptions : Type := mkOptions {
  gte : option string;
  lte : option string;
  reverse : bool;
  limit : option nat
}.

Definition no_options : IteratorOptions :=
  {| gte := None; lte := None; reverse := false; limit := None |}.

Definition range (lo hi : string) : IteratorOptions :=
  {| gte := Some lo; lte := Some hi; reverse := false; limit := None |}.

Definition in_range (o : IteratorOptions) (key : string) : bool :=
  match gte o with Some lo => str_le lo key | None => true end &&
  match lte o with Some hi => str_le key hi | None => true end.

(** The entries an iterator produces, in the order it produces them. *)
Definition iterator {V : Type} (db : Level V) (o : IteratorOptions)
  : list (string * V) :=
  let hits := filter (fun kv => in_range o (fst kv)) db in
  let sequence := if reverse o then List.rev hits else hits in
  match limit o with
  | Some n => firstn n sequence
  | None => sequence
  end.

(** A JS [Map] from strings to strings: entries in insertion order; [set]
    on a present key replaces the value and keeps the position. *)
Definition JsMap : Type := list (string * string).

Fixpoint map_set (m : JsMap) (k v : string) : JsMap :=
  match m with
  | [] => [(k, v)]
  | (k', v') :: m' =>
      if String.eqb k' k then (k', v) :: m'
      else (k', v') :: map_set m' k v
  end.

(** ** Database state *)

(** A call issued to one of the two stores. *)
Inductive write : Type :=
| PutTrack (key : string) (data : Track)
| DelTrack (key : string)
| PutChange (key : string) (v : string)
| DelChange (key : string).

(** [level] is the tracks store, [changeIndex] the changes store;
    [journal] lists the store writes issued so far, oldest first. *)
Record DB : Type := mkDB {
  level : Level Track;
  changeIndex : Level string;
  journal : list write
}.

(** Computations that read and update the database and may throw; a throw
    keeps the state reached so far. *)
Definition M (A : Type) : Type := DB -> result A * DB.

Definition ret {A : Type} (a : A) : M A := fun db => (Ok a, db).

Definition bind {A B : Type} (m : M A) (f : A -> M B) : M B :=
  fun db =>
    match m db with
    | (Ok a, db') => f a db'
    | (Throw e, db') => (Throw e, db')
    end.

Definition lift {A : Type} (r : result A) : M A := fun db => (r, db).

Notation "x <- m ;; k" := (bind m (fun x => k))
  (at level 61, m at next level, right associativity).
Notation "m ;;; k" := (bind m (fun _ => k))
  (at level 61, right associativity).

Definition track_put (key : string) (data : Track) : M unit :=
  fun db => (Ok tt, {| level := level_put (level db) key data;
                       changeIndex := changeIndex db;
                       journal := (journal db ++ [PutTrack key data])%list |}).

Definition track_del (key : string) : M unit :=
  fun db => (Ok tt, {| level := level_del (level db) key;
                       changeIndex := changeIndex db;
                       journal := (journal db ++ [DelTrack key])%list |}).

Definition change_put (key : string) (v : string) : M unit :=
  fun db => (Ok tt, {| level := level db;
                       changeIndex := level_put (changeIndex db) key v;
                       journal := (journal db ++ [PutChange key v])%list |}).

Definition change_del (key : string) : M unit :=
  fun db => (Ok tt, {| level := level db;
                       changeIndex := level_del (changeIndex db) key;
                       journal := (journal db ++ [DelChange key])%list |}).

(** ** Queries *)

(** [String(Number.MAX_SAFE_INTEGER)] *)
Definition MAX_SAFE_INTEGER : string := "9007199254740991".

Definition idPrefix (d : Datum) : string :=
  tpl (chainId d) ++ "/" ++ tpl (address d) ++ "/" ++ tpl (tokenId d).

Definition emit (till : string) (r : ReturnValue) : list ReturnValue :=
  if js_le (blockNumber (id r)) till then [r] else [].

(** The body of [for await (const [_id, value] of iter)] together with the
    final yield: the values the generator yields from here on. *)
Fixpoint getMany_loop (till : string) (lastId : Datum) (res : ReturnValue)
    (iter : list (string * Track)) : list ReturnValue :=
  match iter with
  | [] => emit till res
  | (_id, v) :: iter' =>
      let i := keyToDatum _id in
      if negb (String.eqb (idPrefix lastId) (idPrefix i))
      then (emit till res ++ getMany_loop till i (mkReturnValue i v) iter')%list
      else if js_le (blockNumber i) till
           then getMany_loop till i (mkReturnValue i v) iter'
           else getMany_loop till i res iter'
  end.

Definition tillBlockNumber (datum : Datum) : string :=
  if truthy (blockNumber datum) then or_empty (blockNumber datum)
  else MAX_SAFE_INTEGER.

Definition getMany_filter (datum : Datum) : IteratorOptions :=
  if truthy (address datum)
  then range (tpl (chainId datum) ++ "/" ++ tpl (address datum) ++ "/")
             (tpl (chainId datum) ++ "/" ++ tpl (address datum) ++ "/~")
  else range (tpl (chainId datum) ++ "/") (tpl (chainId datum) ++ "/~").

(** The sequence the generator yields, or the error it throws before the
    first yield. *)
Definition getMany (lvl : Level Track) (datum : Datum)
  : result (list ReturnValue) :=
  match iterator lvl (getMany_filter datum) with
  | [] => Throw (Error "Couldn't find any items for the given DB query")
  | (k0, v0) :: iter =>
      Ok (getMany_loop (tillBlockNumber datum) (keyToDatum k0)
            (mkReturnValue (keyToDatum k0) v0) iter)
  end.

(** The [for await] loop that returns at its first round, and the throw
    that follows it.  The message is kept without the JSON of the datum. *)
Definition first_hit (lvl : Level Track) (o : IteratorOptions)
  : result ReturnValue :=
  match iterator lvl o with
  | (k, v) :: _ => Ok (mkReturnValue (keyToDatum k) v)
  | [] => Throw (LEVEL_NOT_FOUND "Level not found")
  end.

Definition getOne (lvl : Level Track) (datum : Datum) : result ReturnValue :=
  let p := tpl (chainId datum) ++ "/" ++ tpl (address datum) ++ "/" ++
           tpl (tokenId datum) ++ "/" in
  if truthy (chainId datum) && truthy (address datum) &&
     truthy (tokenId datum) && truthy (blockNumber datum)
  then first_hit lvl {| gte := Some p;
                        lte := Some (p ++ tpl (blockNumber datum));
                        reverse := true; limit := Some 1 |}
  else if truthy (chainId datum) && truthy (address datum) &&
          truthy (tokenId datum)
  then first_hit lvl {| gte := Some p; lte := Some (p ++ "~");
                        reverse := true; limit := Some 1 |}
  else Throw (Error "Insufficient parametrs provided to DB.getOne function").

(** One round of the loop of [getIdsChanged]: split the marker key, print
    the block number back in decimal, and [ids.set(nid, id)]. *)
Definition marker_nid (_id : string) : string :=
  let segs := split "/" _id in
  tpl (nth_error segs 1) ++ "/" ++ tpl (nth_error segs 2) ++ "/" ++
  tpl (nth_error segs 3).

Definition marker_block (_id : string) : string :=
  match nth_error (split "/" _id) 0 with
  | Some b => decodeNumber b
  | None => "NaN"
  end.

Definition marker_id (_id : string) : string :=
  marker_nid _id ++ "/" ++ marker_block _id.

Definition getIdsChanged_step (ids : JsMap) (_id : string) : JsMap :=
  map_set ids (marker_nid _id) (marker_id _id).

Definition getIdsChanged_map (changes : Level string) (lo hi : string) : JsMap :=
  fold_left (fun ids kv => getIdsChanged_step ids (fst kv))
            (iterator changes (range (lo ++ "/") (hi ++ "/~"))) [].

Definition getIdsChanged (changes : Level string) (from : string)
    (to : option string) : result (list string) :=
  let to := nullish to from in
  match encodeNumber from with
  | Throw e => Throw e
  | Ok lo =>
      match encodeNumber to with
      | Throw e => Throw e
      | Ok hi => Ok (map snd (getIdsChanged_map changes lo hi))
      end
  end.

(** ** Updates *)

Definition insert (datum : Datum) (data : Track) : M unit :=
  track_put (datumToKey datum) data ;;;
  ck <- lift (datumToChangeKey datum) ;;
  change_put ck "".

Definition del (datum : Datum) : M unit :=
  track_del (datumToKey datum) ;;;
  ck <- lift (datumToChangeKey datum) ;;
  change_del ck.

(** The loop of [createChangeIndex] over what is left of the scan;
    [count] is the number it logs at the end. *)
Fixpoint createChangeIndex_loop (iter : list (string * Track)) (count : nat)
  : M nat :=
  match iter with
  | [] => ret count
  | (_id, _) :: iter' =>
      ck <- lift (datumToChangeKey (keyToDatum _id)) ;;
      change_put ck "" ;;;
      createChangeIndex_loop iter' (S count)
  end.

Definition createChangeIndex : M nat :=
  fun db => createChangeIndex_loop (iterator (level db) no_options) 0 db.

(** The database after a computation, whatever its result. *)
Definition after {A : Type} (m : M A) (db : DB) : DB := snd (m db).

Definition empty_db : DB := {| level := []; changeIndex := []; journal := [] |}.

(** ** Vocabulary of the statements *)

(** Keys in strictly ascending byte order, which is how a Level store
    holds them. *)
Fixpoint ascending (ks : list string) : bool :=
  match ks with
  | [] => true
  | k :: ks' =>
      match ks' with
      | [] => true
      | k' :: _ => str_lt k k' && ascending ks'
      end
  end.

Definition ordered {V : Type} (db : Level V) : Prop :=
  ascending (keys db) = true.

(** A primary key with exactly the four segments [datumToKey] writes. *)
Definition wf_key (key : string) : bool :=
  Nat.eqb (List.length (split "/" key)) 4.

Definition well_formed {V : Type} (db : Level V) : Prop :=
  forallb (fun kv => wf_key (fst kv)) db = true.

(** The identity of a version: its group. *)
Definition identity (d : Datum) : option string * option string * option string :=
  (chainId d, address d, tokenId d).

Definition block (d : Datum) : string := or_empty (blockNumber d).

Definition blocks {V : Type} (scan : list (string * V)) : list string :=
  map (fun kv => block (keyToDatum (fst kv))) scan.

(** Byte-wise and numeric comparison agree on every pair of the given
    block-number strings. *)
Definition numeric_order (bs : list string) : bool :=
  forallb (fun x => forallb (fun y =>
    Bool.eqb (str_le x y) (N.leb (block_value x) (block_value y))) bs) bs.

(** A change marker as [datumToChangeKey] writes it from a decimal block
    number: ten digits, then the identity. *)
Definition marker_pad (_id : string) : string :=
  match split "/" _id with
  | b :: _ => b
  | [] => ""
  end.

Definition wf_marker (_id : string) : bool :=
  all_digits (marker_pad _id) &&
  Nat.eqb (String.length (marker_pad _id)) MAX_LENGTH.

Definition complete (d : Datum) : Prop :=
  exists c a t b, d = mkDatum (Some c) (Some a) (Some t) (Some b).

(** ** Auxiliary notions used in the proofs *)

Fixpoint has_sep (sep : ascii) (s : string) : bool :=
  match s with
  | EmptyString => false
  | String c s' => Ascii.eqb c sep || has_sep sep s'
  end.

(** A field that contains no slash. *)
Definition sf (s : string) : Prop := has_sep "/" s = false.

Definition key_lt (a b : string) : Prop := str_lt a b = true.

Definition digit_value (c : ascii) : N := N_of_ascii c - 48.

(** A scanned entry as [getMany] yields it, whether it is within the
    cutoff, and the group it belongs to. *)
Definition dec (kv : string * Track) : ReturnValue :=
  mkReturnValue (keyToDatum (fst kv)) (snd kv).

Definition within (till : string) (kv : string * Track) : bool :=
  js_le (blockNumber (keyToDatum (fst kv))) till.

Definition group_of (kv : string * Track) : string :=
  idPrefix (keyToDatum (fst kv)).

(** The map [getIdsChanged] holds after the given marker keys. *)
Definition collect (ks : list string) (m0 : JsMap) : JsMap :=
  fold_left getIdsChanged_step ks m0.

(** The marker keys in the scanned window of [getIdsChanged]. *)
Definition in_window (lo hi key : string) : bool :=
  str_le (lo ++ "/") key && str_le key (hi ++ "/~").

Definition markers_ok (changes : Level string) : Prop :=
  forallb (fun kv => wf_marker (fst kv)) changes = true.

(** The marker keys [createChangeIndex] writes for a scan, up to the first
    key it cannot encode. *)
Fixpoint written (iter : list (string * Track)) : list string :=
  match iter with
  | [] => []
  | (_id, _) :: iter' =>
      match datumToChangeKey (keyToDatum _id) with
      | Ok ck => ck :: written iter'
      | Throw _ => []
      end
  end.

Definition put_all (cks : list string) (changes : Level string) : Level string :=
  fold_left (fun s ck => level_put s ck "") cks changes.

(** ** Example databases *)

Definition datum_of (c a t b : string) : Datum :=
  mkDatum (Some c) (Some a) (Some t) (Some b).

Definition run_inserts (vs : list (Datum * Track)) (db : DB) : DB :=
  fold_left (fun db v => after (insert (fst v) (snd v)) db) vs db.

(** One token with versions at blocks 100 and 101. *)
Definition history_db : DB :=
  run_inserts [ (datum_of "1" "0x01" "1" "100", "data");
                (datum_of "1" "0x01" "1" "101", "updated-data") ] empty_db.

(** One token with versions at blocks 9 and 10. *)
Definition rollover_db : DB :=
  run_inserts [ (datum_of "1" "0x01" "1" "9", "nine");
                (datum_of "1" "0x01" "1" "10", "ten") ] empty_db.

(** Token 1 at block 110, token 2 at blocks 110 and 120, token 3 at block
    130, all of one contract. *)
Definition scenario_db : DB :=
  run_inserts [ (datum_of "1" "0xb8" "1" "110", "A");
                (datum_of "1" "0xb8" "2" "110", "B");
                (datum_of "1" "0xb8" "2" "120", "B2");
                (datum_of "1" "0xb8" "3" "130", "C") ] empty_db.

Definition by_contract (c a : string) (cutoff : option string) : Datum :=
  mkDatum (Some c) (Some a) None cutoff.

(** A tracks store cleared after an insert, as the test suite leaves it:
    the marker is still there. *)
Definition cleared_db : DB :=
  {| level := [];
     changeIndex := [("0000000095/1/0x13/5", "")];
     journal := [] |}.

(** ** Resolving the changed keys *)

(** [level.get(key)]: Level rejects with its not-found error (code
    LEVEL_NOT_FOUND, the one [getOne] imitates) when the key is absent. *)
Definition track_get (lvl : Level Track) (key : string) : result Track :=
  match level_get lvl key with
  | Some v => Ok v
  | None => Throw (LEVEL_NOT_FOUND "Entry not found")
  end.

(** [Promise.all] over reads that do not write: the values in order, or a
    rejection as soon as one read rejects. *)
Fixpoint promise_all {A : Type} (rs : list (result A)) : result (list A) :=
  match rs with
  | [] => Ok []
  | Throw e :: _ => Throw e
  | Ok a :: rs' =>
      match promise_all rs' with
      | Ok l => Ok (a :: l)
      | Throw e => Throw e
      end
  end.

Definition fill_one (lvl : Level Track) (id : string) : result ReturnValue :=
  match track_get lvl id with
  | Ok value => Ok (mkReturnValue (keyToDatum id) value)
  | Throw e => Throw e
  end.

Definition getIdsChanged_fill (lvl : Level Track) (changes : Level string)
    (from : string) (to : option string) : result (list ReturnValue) :=
  match getIdsChanged changes from to with
  | Throw e => Throw e
  | Ok idsChanged => promise_all (map (fill_one lvl) idsChanged)
  end.

(** ** Well-formed data and databases *)

(** A datum as the crawler inserts it: every field present and free of
    slashes, the block number a canonical decimal of at most ten digits. *)
Definition valid_datum (d : Datum) : Prop :=
  exists c a t b, d = datum_of c a t b /\
    sf c /\ sf a /\ sf t /\
    canonical b = true /\ String.length b <= MAX_LENGTH.

(** Both stores ascending, primary keys of four segments, markers of ten
    digits. *)
Definition consistent (db : DB) : Prop :=
  ordered (level db) /\ ordered (changeIndex db) /\
  well_formed (level db) /\ markers_ok (changeIndex db).

(** Every marker names a version that is stored. *)
Definition linked (db : DB) : Prop :=
  forall k, In k (keys (changeIndex db)) ->
    level_get (level db) (marker_id k) <> None.

(** Two contracts whose addresses start the same way. *)
Definition neighbours_db : DB :=
  run_inserts [ (datum_of "1" "0xb8" "1" "110", "A");
                (datum_of "1" "0xb80" "1" "110", "Z") ] empty_db.

(** One token with a single version, at block 95. *)
Definition late_db : DB :=
  run_inserts [ (datum_of "1" "0x01" "1" "95", "late") ] empty_db.

(** Token 1 at block 90 and token 2 at block 110, of one contract. *)
Definition mixed_db : DB :=
  run_inserts [ (datum_of "1" "0xb8" "1" "90", "P");
                (datum_of "1" "0xb8" "2" "110", "Q") ] empty_db.

(** * Byte order on strings *)

Lemma ascii_compare_refl (c : ascii) : Ascii.compare c c = Eq.
Proof. unfold Ascii.compare. apply N.compare_refl. Qed.

Lemma ascii_compare_lt_trans (a b c : ascii) :
  Ascii.compare a b = Lt -> Ascii.compare b c = Lt -> Ascii.compare a c = Lt.
Proof.
  unfold Ascii.compare. rewrite !N.compare_lt_iff. apply N.lt_trans.
Qed.

Lemma compare_refl (s : string) : String.compare s s = Eq.
Proof.
  induction s as [|c s IH]; simpl; [reflexivity|].
  now rewrite ascii_compare_refl.
Qed.

Lemma compare_lt_trans (a b c : string) :
  String.compare a b = Lt -> String.compare b c = Lt -> String.compare a c = Lt.
Proof.
  revert b c.
  induction a as [|x a IH]; intros [|y b] [|z c]; simpl; try discriminate; auto.
  destruct (Ascii.compare x y) eqn:Exy; try discriminate;
    destruct (Ascii.compare y z) eqn:Eyz; try discriminate; intros H1 H2.
  - apply Ascii.compare_eq_iff in Exy, Eyz. subst.
    rewrite ascii_compare_refl. eauto.
  - apply Ascii.compare_eq_iff in Exy. subst. now rewrite Eyz.
  - apply Ascii.compare_eq_iff in Eyz. subst. now rewrite Exy.
  - now rewrite (ascii_compare_lt_trans _ _ _ Exy Eyz).
Qed.

Lemma compare_gt_lt (a b : string) :
  String.compare a b = Gt <-> String.compare b a = Lt.
Proof.
  rewrite (String.compare_antisym b a).
  destruct (String.compare a b); simpl; split; congruence.
Qed.

Lemma str_lt_iff (a b : string) : str_lt a b = true <-> String.compare a b = Lt.
Proof.
  unfold str_lt, String.ltb. destruct (String.compare a b); split; congruence.
Qed.

Lemma str_le_iff (a b : string) : str_le a b = true <-> String.compare a b <> Gt.
Proof.
  unfold str_le, String.leb. destruct (String.compare a b); split; congruence.
Qed.

Lemma str_le_lt_or_eq (a b : string) :
  str_le a b = true <-> str_lt a b = true \/ a = b.
Proof.
  rewrite str_le_iff, str_lt_iff. split.
  - destruct (String.compare a b) eqn:E; try congruence; auto.
    right. now apply String.compare_eq_iff.
  - intros [H | ->]; [congruence | rewrite compare_refl; congruence].
Qed.

Lemma str_le_refl (a : string) : str_le a a = true.
Proof. apply str_le_lt_or_eq. now right. Qed.

Lemma str_lt_irrefl (a : string) : str_lt a a = false.
Proof.
  unfold str_lt, String.ltb. now rewrite compare_refl.
Qed.

Lemma str_lt_trans (a b c : string) :
  str_lt a b = true -> str_lt b c = true -> str_lt a c = true.
Proof. rewrite !str_lt_iff. apply compare_lt_trans. Qed.

Lemma str_lt_le (a b : string) : str_lt a b = true -> str_le a b = true.
Proof. intros H. apply str_le_lt_or_eq. now left. Qed.

Lemma str_le_lt_trans (a b c : string) :
  str_le a b = true -> str_lt b c = true -> str_lt a c = true.
Proof.
  rewrite str_le_lt_or_eq. intros [H | ->]; eauto using str_lt_trans.
Qed.

Lemma str_lt_le_trans (a b c : string) :
  str_lt a b = true -> str_le b c = true -> str_lt a c = true.
Proof.
  rewrite str_le_lt_or_eq. intros H [H' | <-]; eauto using str_lt_trans.
Qed.

Lemma str_le_trans (a b c : string) :
  str_le a b = true -> str_le b c = true -> str_le a c = true.
Proof.
  intros H. rewrite (str_le_lt_or_eq b c). intros [H' | <-]; auto.
  apply str_lt_le. eauto using str_le_lt_trans.
Qed.

Lemma str_lt_not_le (a b : string) : str_lt a b = true -> str_le b a = false.
Proof.
  rewrite str_lt_iff. intros H. apply compare_gt_lt in H.
  unfold str_le, String.leb. now rewrite H.
Qed.

Lemma str_le_not_lt (a b : string) : str_le a b = false -> str_lt b a = true.
Proof.
  unfold str_le, String.leb. destruct (String.compare a b) eqn:E; try discriminate.
  intros _. apply str_lt_iff. now apply compare_gt_lt.
Qed.

(** Comparison looks through a common prefix. *)
Lemma compare_app (p x y : string) :
  String.compare (p ++ x) (p ++ y) = String.compare x y.
Proof.
  induction p as [|c p IH]; simpl; [reflexivity|].
  now rewrite ascii_compare_refl.
Qed.

(** Anything between two strings that share a prefix has that prefix. *)
Lemma between_prefix (p x y k : string) :
  str_le (p ++ x) k = true -> str_le k (p ++ y) = true ->
  exists z, k = p ++ z.
Proof.
  rewrite !str_le_iff. revert k.
  induction p as [|c p IH]; intros k; simpl.
  - intros _ _. now exists k.
  - destruct k as [|d k]; simpl; [congruence|].
    destruct (Ascii.compare c d) eqn:Ecd.
    + apply Ascii.compare_eq_iff in Ecd. subst d.
      rewrite ascii_compare_refl. intros H1 H2.
      destruct (IH k H1 H2) as [z ->]. now exists z.
    + rewrite Ascii.compare_antisym, Ecd. simpl. congruence.
    + congruence.
Qed.

(** Among strings of one length the first difference decides, whatever
    follows. *)
Lemma compare_app_same_length (a b x y : string) :
  String.length a = String.length b ->
  String.compare a b <> Eq ->
  String.compare (a ++ x) (b ++ y) = String.compare a b.
Proof.
  revert b.
  induction a as [|c a IH]; intros [|d b]; simpl; try discriminate.
  - congruence.
  - intros Hlen Hne. destruct (Ascii.compare c d); auto.
Qed.


Lemma append_assoc (a b c : string) : (a ++ b) ++ c = a ++ b ++ c.
Proof. induction a as [|x a IH]; simpl; [reflexivity | now rewrite IH]. Qed.

Lemma append_length (a b : string) :
  String.length (a ++ b) = String.length a + String.length b.
Proof. induction a as [|x a IH]; simpl; [reflexivity | now rewrite IH]. Qed.

Lemma append_inv_head (p x y : string) : p ++ x = p ++ y -> x = y.
Proof. induction p as [|c p IH]; simpl; [auto | intros H; injection H; auto]. Qed.

(** * Splitting and joining *)

Lemma split_nonempty (sep : ascii) (s : string) : split sep s <> [].
Proof.
  destruct s as [|c s]; simpl; [discriminate|].
  destruct (Ascii.eqb c sep); [discriminate|].
  destruct (split sep s); discriminate.
Qed.

Lemma concat_split (sep : ascii) (s : string) :
  String.concat (String sep EmptyString) (split sep s) = s.
Proof.
  induction s as [|c s IH]; simpl; [reflexivity|].
  destruct (Ascii.eqb c sep) eqn:E.
  - apply Ascii.eqb_eq in E. subst c.
    pose proof (split_nonempty sep s) as Hne.
    destruct (split sep s) as [|seg segs]; [congruence|].
    simpl. simpl in IH. now rewrite IH.
  - pose proof (split_nonempty sep s) as Hne.
    destruct (split sep s) as [|seg segs]; [congruence|].
    destruct segs as [|seg' segs]; simpl in *; now rewrite <- IH.
Qed.

Lemma split_segments_free (sep : ascii) (s seg : string) :
  In seg (split sep s) -> has_sep sep seg = false.
Proof.
  revert seg. induction s as [|c s IH]; simpl; intros seg.
  - intros [<- | []]. reflexivity.
  - destruct (Ascii.eqb c sep) eqn:E.
    + intros [<- | H]; [reflexivity | auto].
    + pose proof (split_nonempty sep s) as Hne.
      destruct (split sep s) as [|seg0 segs]; [congruence|].
      intros [<- | H].
      * simpl. rewrite E. apply IH. now left.
      * apply IH. now right.
Qed.

Lemma split_free (sep : ascii) (s : string) :
  has_sep sep s = false -> split sep s = [s].
Proof.
  induction s as [|c s IH]; simpl; [reflexivity|].
  intros H. apply orb_false_iff in H. destruct H as [E H].
  rewrite E, (IH H). reflexivity.
Qed.

Lemma split_app (sep : ascii) (s rest : string) :
  has_sep sep s = false ->
  split sep (s ++ String sep rest) = s :: split sep rest.
Proof.
  induction s as [|c s IH]; simpl.
  - intros _. now rewrite Ascii.eqb_refl.
  - intros H. apply orb_false_iff in H. destruct H as [E H].
    rewrite E, (IH H). reflexivity.
Qed.

(** * Primary keys *)

Lemma wf_key_inv (k : string) :
  wf_key k = true ->
  exists c a t b, split "/" k = [c; a; t; b] /\
    k = c ++ "/" ++ a ++ "/" ++ t ++ "/" ++ b /\
    sf c /\ sf a /\ sf t /\ sf b.
Proof.
  unfold wf_key. intros H. apply Nat.eqb_eq in H.
  pose proof (concat_split "/" k) as Hj.
  pose proof (split_segments_free "/" k) as Hf.
  destruct (split "/" k) as [|c [|a [|t [|b [|x l]]]]]; try discriminate.
  exists c, a, t, b. repeat split; try (apply Hf; simpl; tauto).
  now rewrite <- Hj.
Qed.

Lemma split_key (c a t b : string) :
  sf c -> sf a -> sf t ->
  split "/" (c ++ "/" ++ a ++ "/" ++ t ++ "/" ++ b) = c :: a :: t :: split "/" b.
Proof.
  intros Hc Ha Ht.
  change (c ++ "/" ++ a ++ "/" ++ t ++ "/" ++ b)
    with (c ++ String "/" (a ++ String "/" (t ++ String "/" b))).
  now rewrite !split_app.
Qed.

Lemma keyToDatum_wf (k : string) :
  wf_key k = true ->
  exists c a t b,
    keyToDatum k = mkDatum (Some c) (Some a) (Some t) (Some b) /\
    k = c ++ "/" ++ a ++ "/" ++ t ++ "/" ++ b /\
    sf c /\ sf a /\ sf t /\ sf b.
Proof.
  intros H. destruct (wf_key_inv k H) as (c & a & t & b & Hs & Hk & Hf).
  exists c, a, t, b. split; [|now split].
  unfold keyToDatum. now rewrite Hs.
Qed.

Lemma datumToKey_keyToDatum (k : string) :
  wf_key k = true -> datumToKey (keyToDatum k) = k.
Proof.
  intros H. destruct (keyToDatum_wf k H) as (c & a & t & b & -> & Hk & _).
  now rewrite Hk.
Qed.

Lemma key_prefix_block (k : string) :
  wf_key k = true ->
  k = idPrefix (keyToDatum k) ++ "/" ++ block (keyToDatum k).
Proof.
  intros H. destruct (keyToDatum_wf k H) as (c & a & t & b & -> & Hk & _).
  unfold idPrefix, block. simpl. rewrite Hk.
  repeat (rewrite append_assoc; simpl). reflexivity.
Qed.

(** * Groups of versions *)

Lemma identity_idPrefix (d d' : Datum) :
  identity d = identity d' -> idPrefix d = idPrefix d'.
Proof.
  unfold identity, idPrefix. intros H. injection H as -> -> ->. reflexivity.
Qed.

Lemma split_prefix (c a t : string) :
  sf c -> sf a -> sf t -> split "/" (c ++ "/" ++ a ++ "/" ++ t) = [c; a; t].
Proof.
  intros Hc Ha Ht.
  change (c ++ "/" ++ a ++ "/" ++ t) with (c ++ String "/" (a ++ String "/" t)).
  now rewrite !split_app, split_free.
Qed.

Lemma idPrefix_mk (c a t : string) (b : option string) :
  idPrefix (mkDatum (Some c) (Some a) (Some t) b) = c ++ "/" ++ a ++ "/" ++ t.
Proof. reflexivity. Qed.

Lemma idPrefix_identity (k k' : string) :
  wf_key k = true -> wf_key k' = true ->
  idPrefix (keyToDatum k) = idPrefix (keyToDatum k') ->
  identity (keyToDatum k) = identity (keyToDatum k').
Proof.
  intros H H'.
  destruct (keyToDatum_wf k H) as (c & a & t & b & -> & _ & Hc & Ha & Ht & _).
  destruct (keyToDatum_wf k' H') as (c' & a' & t' & b' & -> & _ & Hc' & Ha' & Ht' & _).
  rewrite !idPrefix_mk. unfold identity. cbn [chainId address tokenId]. intros E.
  apply (f_equal (split "/")) in E.
  rewrite !split_prefix in E by assumption.
  now injection E as -> -> ->.
Qed.

(** The keys of one group sit next to each other in key order. *)
Lemma group_contiguous (k1 k2 k3 : string) :
  wf_key k1 = true -> wf_key k2 = true -> wf_key k3 = true ->
  str_le k1 k2 = true -> str_le k2 k3 = true ->
  idPrefix (keyToDatum k1) = idPrefix (keyToDatum k3) ->
  idPrefix (keyToDatum k2) = idPrefix (keyToDatum k1).
Proof.
  intros W1 W2 W3 L12 L23 E.
  pose proof (key_prefix_block k1 W1) as P1.
  pose proof (key_prefix_block k3 W3) as P3.
  rewrite <- E in P3.
  rewrite <- append_assoc in P1, P3.
  rewrite P1 in L12. rewrite P3 in L23.
  destruct (between_prefix _ _ _ _ L12 L23) as [z Hz].
  destruct (keyToDatum_wf k1 W1) as (c & a & t & b & D1 & _ & Hc & Ha & Ht & _).
  rewrite D1 in Hz |- *. rewrite idPrefix_mk in Hz |- *.
  assert (Hk2 : k2 = c ++ "/" ++ a ++ "/" ++ t ++ "/" ++ z).
  { rewrite Hz. repeat (rewrite append_assoc; simpl). reflexivity. }
  destruct (wf_key_inv k2 W2) as (c2 & a2 & t2 & b2 & S2 & _).
  rewrite Hk2, split_key in S2 by assumption.
  unfold keyToDatum. rewrite Hk2, split_key by assumption.
  reflexivity.
Qed.

(** Inside a group, keys are ordered as their block-number strings. *)
Lemma same_group_compare (k k' : string) :
  wf_key k = true -> wf_key k' = true ->
  idPrefix (keyToDatum k) = idPrefix (keyToDatum k') ->
  String.compare k k' =
  String.compare (block (keyToDatum k)) (block (keyToDatum k')).
Proof.
  intros W W' E.
  rewrite (key_prefix_block k W) at 1.
  rewrite (key_prefix_block k' W') at 1.
  rewrite E, <- !append_assoc. apply compare_app.
Qed.

(** * Ascending stores *)

Lemma ascending_sorted (ks : list string) :
  ascending ks = true <-> StronglySorted key_lt ks.
Proof.
  split.
  - intros H. apply Sorted_StronglySorted.
    { intros a b c. apply str_lt_trans. }
    induction ks as [|k ks IH]; [constructor|].
    simpl in H. destruct ks as [|k' ks].
    + repeat constructor.
    + apply andb_true_iff in H. destruct H as [H1 H2].
      constructor; [auto | constructor; exact H1].
  - intros H. apply StronglySorted_Sorted in H.
    induction H as [|k ks Hs IH Hh]; [reflexivity|].
    simpl. destruct ks as [|k' ks]; [reflexivity|].
    inversion Hh; subst. apply andb_true_iff. split; auto.
Qed.

Lemma sorted_filter (f : string -> bool) (ks : list string) :
  StronglySorted key_lt ks -> StronglySorted key_lt (filter f ks).
Proof.
  induction 1 as [|k ks Hs IH Hf]; simpl; [constructor|].
  destruct (f k); auto. constructor; auto.
  rewrite Forall_forall in *. intros x Hx. apply filter_In in Hx. now apply Hf.
Qed.

Lemma keys_filter {V : Type} (f : string -> bool) (db : Level V) :
  keys (filter (fun kv => f (fst kv)) db) = filter f (keys db).
Proof.
  induction db as [|[k v] db IH]; simpl; [reflexivity|].
  destruct (f k); simpl; now rewrite IH.
Qed.

Lemma iterator_range {V : Type} (db : Level V) (lo hi : string) :
  iterator db (range lo hi) = filter (fun kv => in_range (range lo hi) (fst kv)) db.
Proof. reflexivity. Qed.

Lemma iterator_range_sorted {V : Type} (db : Level V) (lo hi : string) :
  ordered db -> StronglySorted key_lt (keys (iterator db (range lo hi))).
Proof.
  intros H. rewrite iterator_range, keys_filter.
  apply sorted_filter. now apply ascending_sorted.
Qed.

Lemma iterator_range_In {V : Type} (db : Level V) (lo hi : string) (kv : string * V) :
  In kv (iterator db (range lo hi)) <->
  In kv db /\ str_le lo (fst kv) = true /\ str_le (fst kv) hi = true.
Proof.
  rewrite iterator_range, filter_In. unfold in_range. simpl.
  now rewrite andb_true_iff.
Qed.

(** * Decimal numerals *)

Lemma of_uint_front (d : uint) :
  d <> Nil ->
  N.of_uint d =
  (Unsigned.hd d * 10 ^ Unsigned.usize (Unsigned.tl d) + N.of_uint (Unsigned.tl d))%N.
Proof.
  intros Hd. unfold N.of_uint.
  rewrite (Unsigned.of_uint_alt d), (Unsigned.of_uint_alt (Unsigned.tl d)).
  destruct d; try congruence; unfold Decimal.rev at 1; simpl revapp;
    rewrite Unsigned.of_lu_revapp; simpl Unsigned.of_lu;
    simpl Unsigned.hd; simpl Unsigned.tl; lia.
Qed.

Lemma digit_char (c : ascii) (d : uint) :
  is_digit c = true ->
  exists d', uint_of_char c (Some d) = Some d' /\
    d' <> Nil /\ Unsigned.tl d' = d /\
    Unsigned.hd d' = digit_value c /\ (digit_value c <= 9)%N.
Proof.
  destruct c as [[|] [|] [|] [|] [|] [|] [|] [|]]; intros H;
    try discriminate H;
    (eexists; split; [reflexivity|];
     repeat split; try discriminate; vm_compute; discriminate).
Qed.

Lemma digit_code (c : ascii) :
  is_digit c = true -> (N_of_ascii c = 48 + digit_value c)%N.
Proof.
  destruct c as [[|] [|] [|] [|] [|] [|] [|] [|]]; intros H;
    try discriminate H; reflexivity.
Qed.

Lemma digits_uint (s : string) :
  all_digits s = true ->
  exists d, NilEmpty.uint_of_string s = Some d /\
    Unsigned.usize d = N.of_nat (String.length s).
Proof.
  induction s as [|c s IH]; simpl.
  - intros _. exists Nil. split; reflexivity.
  - intros H. apply andb_true_iff in H. destruct H as [Hc Hs].
    destruct (IH Hs) as (d & Hd & Hu). rewrite Hd.
    destruct (digit_char c d Hc) as (d' & Hd' & Hn & Ht & _).
    exists d'. split; [exact Hd'|].
    destruct d'; try congruence; simpl in Ht; subst; simpl Unsigned.usize;
      rewrite Hu; lia.
Qed.

Lemma Number_digits (s : string) :
  all_digits s = true -> Number s = Some (block_value s).
Proof.
  intros H. destruct (digits_uint s H) as (d & Hd & _).
  unfold block_value, Number. now rewrite Hd.
Qed.

Lemma block_value_cons (c : ascii) (s : string) :
  is_digit c = true -> all_digits s = true ->
  block_value (String c s) =
  (digit_value c * 10 ^ N.of_nat (String.length s) + block_value s)%N.
Proof.
  intros Hc Hs. destruct (digits_uint s Hs) as (d & Hd & Hu).
  unfold block_value, Number. simpl NilEmpty.uint_of_string. rewrite Hd.
  destruct (digit_char c d Hc) as (d' & Hd' & Hn & Ht & Hh & _).
  rewrite Hd'. simpl option_map.
  rewrite (of_uint_front d' Hn), Ht, Hh, Hu. reflexivity.
Qed.

Lemma block_value_bound (s : string) :
  all_digits s = true -> (block_value s < 10 ^ N.of_nat (String.length s))%N.
Proof.
  induction s as [|c s IH].
  - intros _. vm_compute. reflexivity.
  - intros H. simpl in H. apply andb_true_iff in H. destruct H as [Hc Hs].
    rewrite (block_value_cons c s Hc Hs).
    specialize (IH Hs).
    destruct (digit_char c Nil Hc) as (_ & _ & _ & _ & _ & H9).
    simpl String.length. rewrite Nat2N.inj_succ, N.pow_succ_r'.
    nia.
Qed.

(** Numerals of one length compare byte-wise as their values do. *)
Lemma digits_compare (a b : string) :
  all_digits a = true -> all_digits b = true ->
  String.length a = String.length b ->
  String.compare a b = N.compare (block_value a) (block_value b).
Proof.
  revert b. induction a as [|c a IH]; intros [|d b]; simpl;
    try discriminate.
  - reflexivity.
  - intros Ha Hb Hlen.
    apply andb_true_iff in Ha. destruct Ha as [Hc Ha].
    apply andb_true_iff in Hb. destruct Hb as [Hd Hb].
    injection Hlen as Hlen.
    rewrite (block_value_cons c a Hc Ha), (block_value_cons d b Hd Hb).
    rewrite <- Hlen.
    pose proof (block_value_bound a Ha) as Ba.
    pose proof (block_value_bound b Hb) as Bb. rewrite <- Hlen in Bb.
    specialize (IH b Ha Hb Hlen).
    unfold Ascii.compare. rewrite (digit_code c Hc), (digit_code d Hd).
    set (P := (10 ^ N.of_nat (String.length a))%N) in *.
    destruct (N.compare_spec (48 + digit_value c) (48 + digit_value d)) as [E|E|E].
    + assert (E' : digit_value c = digit_value d) by lia.
      rewrite E', IH. symmetry.
      destruct (N.compare_spec (block_value a) (block_value b));
        [apply N.compare_eq_iff | apply N.compare_lt_iff | apply N.compare_gt_iff];
        lia.
    + symmetry. apply N.compare_lt_iff. nia.
    + symmetry. apply N.compare_gt_iff. nia.
Qed.

(** * Padding *)

Lemma repeat_char_length (c : ascii) (n : nat) :
  String.length (repeat_char c n) = n.
Proof. induction n; simpl; congruence. Qed.

Lemma padStart_length (s : string) (n : nat) (c : ascii) :
  String.length s <= n -> String.length (padStart s n c) = n.
Proof.
  intros H. unfold padStart. rewrite append_length, repeat_char_length. lia.
Qed.

Lemma zeros_digits (n : nat) (s : string) :
  all_digits s = true -> all_digits (repeat_char "0" n ++ s) = true.
Proof. intros H. induction n; simpl; auto. Qed.

Lemma zeros_value (n : nat) (s : string) :
  all_digits s = true ->
  block_value (repeat_char "0" n ++ s) = block_value s.
Proof.
  intros H. induction n as [|n IH]; simpl; [reflexivity|].
  rewrite block_value_cons; [|reflexivity|now apply zeros_digits].
  rewrite IH. change (digit_value "0") with 0%N. lia.
Qed.

Lemma encodeNumber_ok (num : string) :
  String.length num <= MAX_LENGTH ->
  encodeNumber num = Ok (padStart num MAX_LENGTH "0").
Proof.
  intros H. unfold encodeNumber.
  destruct (Nat.ltb_spec MAX_LENGTH (String.length num)); [lia | reflexivity].
Qed.

Lemma toString_Number (n : N) : Number (toString n) = Some n.
Proof.
  unfold Number, toString. rewrite NilEmpty.usu. simpl.
  now rewrite DecimalN.Unsigned.of_to.
Qed.

Lemma decodeNumber_value (s : string) :
  all_digits s = true -> block_value (decodeNumber s) = block_value s.
Proof.
  intros H. unfold decodeNumber. rewrite (Number_digits s H).
  unfold block_value at 1. now rewrite toString_Number.
Qed.

(** * Point reads and writes *)

Section Store.

Context {V : Type}.

Lemma level_get_put_same (db : Level V) (k : string) (v : V) :
  level_get (level_put db k v) k = Some v.
Proof.
  unfold level_get.
  induction db as [|[k' w] db IH]; simpl.
  - now rewrite String.eqb_refl.
  - destruct (String.compare k k') eqn:E; simpl.
    + now rewrite String.eqb_refl.
    + now rewrite String.eqb_refl.
    + destruct (String.eqb k' k) eqn:E'; [|exact IH].
      apply String.eqb_eq in E'. subst. rewrite compare_refl in E. discriminate.
Qed.

Lemma level_get_put_other (db : Level V) (k k' : string) (v : V) :
  k' <> k -> level_get (level_put db k v) k' = level_get db k'.
Proof.
  intros Hne. unfold level_get.
  induction db as [|[k0 w] db IH]; simpl.
  - destruct (String.eqb k k') eqn:E; [|reflexivity].
    apply String.eqb_eq in E. congruence.
  - destruct (String.compare k k0) eqn:E; simpl.
    + apply String.compare_eq_iff in E. subst k0.
      destruct (String.eqb k k') eqn:E'; [|reflexivity].
      apply String.eqb_eq in E'. congruence.
    + destruct (String.eqb k k') eqn:E'; [|reflexivity].
      apply String.eqb_eq in E'. congruence.
    + destruct (String.eqb k0 k'); [reflexivity | exact IH].
Qed.

Lemma level_get_del_same (db : Level V) (k : string) :
  level_get (level_del db k) k = None.
Proof.
  unfold level_get, level_del.
  induction db as [|[k' w] db IH]; simpl; [reflexivity|].
  destruct (String.eqb k' k) eqn:E; simpl; [exact IH|].
  now rewrite E.
Qed.

Lemma level_get_del_other (db : Level V) (k k' : string) :
  k' <> k -> level_get (level_del db k) k' = level_get db k'.
Proof.
  intros Hne. unfold level_get, level_del.
  induction db as [|[k0 w] db IH]; simpl; [reflexivity|].
  destruct (String.eqb k0 k) eqn:E; simpl.
  - apply String.eqb_eq in E. subst k0.
    destruct (String.eqb k k') eqn:E'; [|exact IH].
    apply String.eqb_eq in E'. congruence.
  - destruct (String.eqb k0 k'); [reflexivity | exact IH].
Qed.

Lemma level_get_absent (db : Level V) (k : string) :
  level_get db k = None -> level_del db k = db.
Proof.
  unfold level_get, level_del.
  induction db as [|[k0 w] db IH]; simpl; [reflexivity|].
  destruct (String.eqb k0 k) eqn:E; simpl; [discriminate|].
  intros H. now rewrite IH.
Qed.

Lemma level_put_In (db : Level V) (k : string) (v : V) (kv : string * V) :
  In kv (level_put db k v) -> kv = (k, v) \/ In kv db.
Proof.
  induction db as [|[k0 w] db IH]; simpl.
  - intros [<- | []]. now left.
  - destruct (String.compare k k0); simpl.
    + intros [<- | H]; [now left | right; now right].
    + intros [<- | H]; [now left | now right].
    + intros [<- | H]; [right; now left|].
      destruct (IH H); [now left | right; now right].
Qed.

Lemma level_put_keeps_keys (db : Level V) (k k' : string) (v : V) :
  In k' (keys db) -> In k' (keys (level_put db k v)).
Proof.
  unfold keys. induction db as [|[k0 w] db IH]; simpl; [tauto|].
  destruct (String.compare k k0) eqn:E; simpl.
  - apply String.compare_eq_iff in E. subst. tauto.
  - tauto.
  - intros [H | H]; [now left | right; auto].
Qed.

Lemma level_put_sorted (db : Level V) (k : string) (v : V) :
  StronglySorted key_lt (keys db) ->
  StronglySorted key_lt (keys (level_put db k v)).
Proof.
  unfold keys. induction db as [|[k0 w] db IH]; simpl; intros Hs.
  - repeat constructor.
  - inversion Hs as [|? ? Hs' Hf]; subst.
    destruct (String.compare k k0) eqn:E; simpl.
    + apply String.compare_eq_iff in E. subst. now constructor.
    + apply str_lt_iff in E. constructor; [exact Hs|].
      constructor; [exact E|].
      rewrite Forall_forall in *. intros x Hx.
      apply str_lt_trans with k0; auto. now apply Hf.
    + constructor; [now apply IH|].
      rewrite Forall_forall in *. intros x Hx.
      apply in_map_iff in Hx. destruct Hx as (kv & <- & Hkv).
      apply level_put_In in Hkv. destruct Hkv as [-> | Hkv].
      * simpl. apply str_lt_iff. now apply compare_gt_lt.
      * apply Hf. now apply in_map.
Qed.

Lemma level_put_ordered (db : Level V) (k : string) (v : V) :
  ordered db -> ordered (level_put db k v).
Proof.
  unfold ordered. rewrite !ascending_sorted. apply level_put_sorted.
Qed.

Lemma level_del_ordered (db : Level V) (k : string) :
  ordered db -> ordered (level_del db k).
Proof.
  unfold ordered, level_del. rewrite !ascending_sorted.
  rewrite (keys_filter (fun x => negb (String.eqb x k))).
  apply sorted_filter.
Qed.

(** Writing again what is already there changes nothing. *)
Lemma level_put_present (db : Level V) (k : string) (v : V) :
  StronglySorted key_lt (keys db) ->
  level_get db k = Some v -> level_put db k v = db.
Proof.
  unfold keys, level_get.
  induction db as [|[k0 w] db IH]; simpl; intros Hs; [discriminate|].
  inversion Hs as [|? ? Hs' Hf]; subst.
  destruct (String.eqb k0 k) eqn:E0.
  - apply String.eqb_eq in E0. subst k0. rewrite compare_refl.
    simpl. intros H. now injection H as ->.
  - intros H. destruct (String.compare k k0) eqn:E.
    + apply String.compare_eq_iff in E. subst.
      rewrite String.eqb_refl in E0. discriminate.
    + exfalso.
      destruct (find (fun kv => String.eqb (fst kv) k) db) as [kv|] eqn:Ef;
        [|discriminate].
      apply find_some in Ef. destruct Ef as [Hin Hk].
      apply String.eqb_eq in Hk.
      rewrite Forall_forall in Hf.
      assert (Hlt : key_lt k0 (fst kv)) by (apply Hf; now apply in_map).
      rewrite Hk in Hlt. apply str_lt_iff in Hlt.
      apply compare_gt_lt in Hlt. congruence.
    + now rewrite (IH Hs' H).
Qed.

End Store.

(** * The grouping loop of [getMany] *)

Lemma sorted_drop_second (k k' : string) (ks : list string) :
  StronglySorted key_lt (k :: k' :: ks) -> StronglySorted key_lt (k :: ks).
Proof.
  intros H. inversion H as [|? ? Hs Hf]; subst.
  inversion Hs; subst. inversion Hf; subst.
  constructor; assumption.
Qed.

Lemma sorted_head_le (k : string) (ks : list string) (x : string) :
  StronglySorted key_lt (k :: ks) -> In x (k :: ks) -> str_le k x = true.
Proof.
  intros H [<- | Hx]; [apply str_le_refl|].
  inversion H as [|? ? _ Hf]; subst. rewrite Forall_forall in Hf.
  apply str_lt_le. now apply Hf.
Qed.

Section Loop.

Variable till : string.

(** What the loop yields is a selection of the scanned entries: each within
    the cutoff, in ascending key order, no two from one group. *)
Lemma loop_selection (iter : list (string * Track)) :
  forall (lastId : Datum) (kr : string) (vr : Track),
    idPrefix lastId = idPrefix (keyToDatum kr) ->
    StronglySorted key_lt (kr :: keys iter) ->
    Forall (fun k => wf_key k = true) (kr :: keys iter) ->
    exists sel,
      getMany_loop till lastId (dec (kr, vr)) iter = map dec sel /\
      incl sel ((kr, vr) :: iter) /\
      StronglySorted key_lt (keys sel) /\
      NoDup (map group_of sel) /\
      Forall (fun kv => within till kv = true) sel.
Proof.
  induction iter as [|[k v] iter IH]; intros lastId kr vr Hl Hs Hw.
  - simpl. unfold emit. cbn [id dec fst snd].
    destruct (js_le (blockNumber (keyToDatum kr)) till) eqn:E.
    + exists [(kr, vr)]. repeat split.
      * apply incl_refl.
      * repeat constructor.
      * repeat constructor. intros [].
      * repeat constructor. exact E.
    + exists []. repeat split.
      * intros x [].
      * constructor.
      * constructor.
      * constructor.
  - cbn [getMany_loop].
    assert (Hs' : StronglySorted key_lt (k :: keys iter)).
    { now inversion Hs. }
    assert (Hw' : Forall (fun k => wf_key k = true) (k :: keys iter)).
    { now inversion Hw. }
    destruct (String.eqb (idPrefix lastId) (idPrefix (keyToDatum k))) eqn:Ep;
      cbn [negb].
    + (* same group *)
      apply String.eqb_eq in Ep.
      destruct (js_le (blockNumber (keyToDatum k)) till) eqn:E.
      * destruct (IH (keyToDatum k) k v eq_refl Hs' Hw')
          as (sel & Hout & Hin & Hso & Hnd & Hok).
        exists sel. repeat split; auto.
        intros x Hx. right. now apply Hin.
      * assert (Hs2 : StronglySorted key_lt (kr :: keys iter)).
        { now apply sorted_drop_second with k. }
        assert (Hw2 : Forall (fun k => wf_key k = true) (kr :: keys iter)).
        { inversion Hw; subst. inversion Hw'; subst. now constructor. }
        assert (Hl2 : idPrefix (keyToDatum k) = idPrefix (keyToDatum kr)).
        { congruence. }
        destruct (IH (keyToDatum k) kr vr Hl2 Hs2 Hw2)
          as (sel & Hout & Hin & Hso & Hnd & Hok).
        exists sel. repeat split; auto.
        intros x Hx. destruct (Hin x Hx) as [<- | Hx']; [now left|].
        right. now right.
    + (* a new group starts *)
      apply String.eqb_neq in Ep.
      destruct (IH (keyToDatum k) k v eq_refl Hs' Hw')
        as (sel & Hout & Hin & Hso & Hnd & Hok).
      change (mkReturnValue (keyToDatum k) v) with (dec (k, v)).
      rewrite Hout. unfold emit. cbn [id dec fst snd].
      destruct (js_le (blockNumber (keyToDatum kr)) till) eqn:E.
      * exists ((kr, vr) :: sel). repeat split.
        -- intros x [<- | Hx]; [now left | right; now apply Hin].
        -- cbn [keys map fst]. constructor; [exact Hso|].
           apply Forall_forall. intros x Hx.
           apply in_map_iff in Hx. destruct Hx as (kv & <- & Hkv).
           apply Hin in Hkv.
           inversion Hs as [|? ? _ Hf]; subst. rewrite Forall_forall in Hf.
           apply Hf. change (k :: keys iter) with (keys ((k, v) :: iter)).
           now apply in_map.
        -- cbn [map]. constructor; [|exact Hnd].
           intros Hx. apply in_map_iff in Hx. destruct Hx as (kv & Hg & Hkv).
           apply Hin in Hkv.
           assert (Hkin : In (fst kv) (k :: keys iter)).
           { change (k :: keys iter) with (keys ((k, v) :: iter)).
             now apply in_map. }
           apply Ep. rewrite Hl. unfold group_of in Hg. cbn [fst] in Hg.
           rewrite Forall_forall in Hw.
           symmetry. apply (group_contiguous kr k (fst kv)).
           ++ apply Hw. now left.
           ++ apply Hw. right. now left.
           ++ apply Hw. now right.
           ++ inversion Hs as [|? ? _ Hf]; subst. rewrite Forall_forall in Hf.
              apply str_lt_le. apply Hf. now left.
           ++ now apply sorted_head_le with (keys iter).
           ++ now symmetry.
        -- constructor; [exact E | exact Hok].
      * exists sel. repeat split; auto.
        intros x Hx. right. now apply Hin.
Qed.

(** Every scanned entry within the cutoff is represented: an entry of its
    group is yielded, with a key at least as high. *)
Lemma loop_complete (iter : list (string * Track)) :
  forall (lastId : Datum) (kr : string) (vr : Track),
    idPrefix lastId = idPrefix (keyToDatum kr) ->
    StronglySorted key_lt (kr :: keys iter) ->
    forall kv, In kv ((kr, vr) :: iter) -> within till kv = true ->
    exists kv', In kv' ((kr, vr) :: iter) /\
      In (dec kv') (getMany_loop till lastId (dec (kr, vr)) iter) /\
      group_of kv' = group_of kv /\
      str_le (fst kv) (fst kv') = true.
Proof.
  induction iter as [|[k v] iter IH]; intros lastId kr vr Hl Hs kv Hin Hok.
  - destruct Hin as [<- | []].
    exists (kr, vr). repeat split.
    + now left.
    + simpl. unfold emit. unfold within in Hok. cbn [id dec fst snd] in *.
      rewrite Hok. now left.
    + apply str_le_refl.
  - cbn [getMany_loop].
    assert (Hs' : StronglySorted key_lt (k :: keys iter)).
    { now inversion Hs. }
    assert (Hlt : str_lt kr k = true).
    { inversion Hs as [|? ? _ Hf]; subst. now inversion Hf. }
    destruct (String.eqb (idPrefix lastId) (idPrefix (keyToDatum k))) eqn:Ep;
      cbn [negb].
    + apply String.eqb_eq in Ep.
      destruct (js_le (blockNumber (keyToDatum k)) till) eqn:E.
      * change (mkReturnValue (keyToDatum k) v) with (dec (k, v)).
        destruct Hin as [<- | Hin].
        -- destruct (IH (keyToDatum k) k v eq_refl Hs' (k, v) (or_introl eq_refl) E)
             as (kv' & Hin' & Hout & Hg & Hle).
           exists kv'. repeat split; auto.
           ++ now right.
           ++ rewrite Hg. unfold group_of. cbn [fst]. congruence.
           ++ cbn [fst] in *. apply str_lt_le.
              now apply str_lt_le_trans with k.
        -- destruct (IH (keyToDatum k) k v eq_refl Hs' kv Hin Hok)
             as (kv' & Hin' & Hout & Hg & Hle).
           exists kv'. repeat split; auto. now right.
      * assert (Hs2 : StronglySorted key_lt (kr :: keys iter)).
        { now apply sorted_drop_second with k. }
        assert (Hl2 : idPrefix (keyToDatum k) = idPrefix (keyToDatum kr)).
        { congruence. }
        assert (Hin2 : In kv ((kr, vr) :: iter)).
        { destruct Hin as [<- | [<- | Hin]]; [now left | | now right].
          unfold within in Hok. cbn [fst] in Hok. congruence. }
        destruct (IH (keyToDatum k) kr vr Hl2 Hs2 kv Hin2 Hok)
          as (kv' & Hin' & Hout & Hg & Hle).
        exists kv'. repeat split; auto.
        destruct Hin' as [<- | Hin']; [now left | right; now right].
    + change (mkReturnValue (keyToDatum k) v) with (dec (k, v)).
      destruct Hin as [<- | Hin].
      * exists (kr, vr). repeat split.
        -- now left.
        -- apply in_or_app. left. unfold emit.
           unfold within in Hok. cbn [id dec fst snd] in *.
           rewrite Hok. now left.
        -- apply str_le_refl.
      * destruct (IH (keyToDatum k) k v eq_refl Hs' kv Hin Hok)
          as (kv' & Hin' & Hout & Hg & Hle).
        exists kv'. repeat split; auto.
        -- now right.
        -- apply in_or_app. now right.
Qed.

End Loop.

Lemma getMany_filter_range (datum : Datum) :
  exists lo hi, getMany_filter datum = range lo hi.
Proof.
  unfold getMany_filter. destruct (truthy (address datum)); eauto.
Qed.

Lemma numeric_order_spec (bs : list string) (x y : string) :
  numeric_order bs = true -> In x bs -> In y bs ->
  str_le x y = N.leb (block_value x) (block_value y).
Proof.
  unfold numeric_order. intros H Hx Hy.
  rewrite forallb_forall in H. specialize (H x Hx).
  rewrite forallb_forall in H. specialize (H y Hy).
  now apply eqb_prop in H.
Qed.

Lemma within_block (till k : string) (v : Track) :
  wf_key k = true ->
  within till (k, v) = str_le (block (keyToDatum k)) till.
Proof.
  intros W. destruct (keyToDatum_wf k W) as (c & a & t & b & E & _).
  unfold within. cbn [fst]. now rewrite E.
Qed.

Lemma NoDup_map_coarser {A B C : Type} (f : A -> B) (g : A -> C) (l : list A) :
  (forall x y, g x = g y -> f x = f y) ->
  NoDup (map f l) -> NoDup (map g l).
Proof.
  intros Hfg. induction l as [|a l IH]; simpl; intros H; [constructor|].
  inversion H as [|? ? Hn Hd]; subst. constructor; auto.
  intros Hin. apply Hn. apply in_map_iff in Hin.
  destruct Hin as (x & Hx & Hxl). apply in_map_iff. exists x. split; auto.
Qed.

Lemma well_formed_In {V : Type} (db : Level V) (k : string) (v : V) :
  well_formed db -> In (k, v) db -> wf_key k = true.
Proof.
  unfold well_formed. rewrite forallb_forall. intros H Hin.
  now apply (H (k, v)).
Qed.

Lemma getMany_general (lvl : Level Track) (datum : Datum) :
  ordered lvl -> well_formed lvl ->
  iterator lvl (getMany_filter datum) <> [] ->
  numeric_order (tillBlockNumber datum ::
                 blocks (iterator lvl (getMany_filter datum))) = true ->
  exists out,
    getMany lvl datum = Ok out /\
    (forall r, In r out ->
       (exists k, In (k, value r) lvl /\
                  in_range (getMany_filter datum) k = true /\
                  id r = keyToDatum k) /\
       (block_value (block (id r)) <= block_value (tillBlockNumber datum))%N) /\
    (forall k v, In (k, v) lvl ->
       in_range (getMany_filter datum) k = true ->
       (block_value (block (keyToDatum k)) <=
        block_value (tillBlockNumber datum))%N ->
       exists r, In r out /\
         identity (id r) = identity (keyToDatum k) /\
         (block_value (block (keyToDatum k)) <= block_value (block (id r)))%N) /\
    NoDup (map (fun r => identity (id r)) out) /\
    ascending (map (fun r => datumToKey (id r)) out) = true.
Proof.
  intros Hord Hwf Hne Hnum.
  destruct (getMany_filter_range datum) as (lo & hi & Hf).
  unfold getMany. rewrite Hf in *.
  set (till := tillBlockNumber datum) in *.
  pose proof (iterator_range_sorted lvl lo hi Hord) as Hss.
  assert (Hscan : forall kv, In kv (iterator lvl (range lo hi)) ->
            In kv lvl /\ in_range (range lo hi) (fst kv) = true).
  { intros kv Hkv. rewrite iterator_range in Hkv.
    now apply filter_In in Hkv. }
  assert (Hback : forall kv, In kv lvl ->
            in_range (range lo hi) (fst kv) = true ->
            In kv (iterator lvl (range lo hi))).
  { intros kv H1 H2. rewrite iterator_range. now apply filter_In. }
  destruct (iterator lvl (range lo hi)) as [|[k0 v0] iter] eqn:Es;
    [congruence|].
  assert (Hw : Forall (fun k => wf_key k = true) (k0 :: keys iter)).
  { apply Forall_forall. intros k Hk.
    change (k0 :: keys iter) with (keys ((k0, v0) :: iter)) in Hk.
    apply in_map_iff in Hk. destruct Hk as ([k' v'] & <- & Hin).
    apply Hscan in Hin. destruct Hin as [Hin _].
    now apply well_formed_In with lvl v'. }
  assert (Hwk : forall k v, In (k, v) ((k0, v0) :: iter) -> wf_key k = true).
  { intros k v Hin. rewrite Forall_forall in Hw. apply Hw.
    change (k0 :: keys iter) with (keys ((k0, v0) :: iter)).
    apply in_map_iff. now exists (k, v). }
  assert (Hblk : forall k v, In (k, v) ((k0, v0) :: iter) ->
            In (block (keyToDatum k)) (till :: blocks ((k0, v0) :: iter))).
  { intros k v Hin. right. unfold blocks. apply in_map_iff. now exists (k, v). }
  assert (Htill : In till (till :: blocks ((k0, v0) :: iter))) by now left.
  cbn [keys map fst] in Hss.
  destruct (loop_selection till iter (keyToDatum k0) k0 v0 eq_refl Hss Hw)
    as (sel & Hout & Hincl & Hso & Hnd & Hok).
  change (mkReturnValue (keyToDatum k0) v0) with (dec (k0, v0)).
  exists (map dec sel). split; [now rewrite Hout|].
  split; [|split; [|split]].
  - intros r Hr. apply in_map_iff in Hr. destruct Hr as ([k v] & <- & Hkv).
    pose proof (Hincl _ Hkv) as Hin.
    rewrite Forall_forall in Hok. specialize (Hok _ Hkv).
    rewrite within_block in Hok by eauto.
    rewrite (numeric_order_spec _ _ _ Hnum (Hblk _ _ Hin) Htill) in Hok.
    apply N.leb_le in Hok.
    split; [|exact Hok].
    exists k. destruct (Hscan _ Hin) as [H1 H2]. auto.
  - intros k v Hin Hr Hle.
    pose proof (Hback (k, v) Hin Hr) as Hkv.
    assert (Hwi : within till (k, v) = true).
    { rewrite within_block by eauto.
      rewrite (numeric_order_spec _ _ _ Hnum (Hblk _ _ Hkv) Htill).
      now apply N.leb_le. }
    destruct (loop_complete till iter (keyToDatum k0) k0 v0 eq_refl Hss
                (k, v) Hkv Hwi) as ([k' v'] & Hin' & Hout' & Hg & Hle').
    exists (dec (k', v')). split; [now rewrite <- Hout|].
    unfold group_of in Hg. cbn [fst dec id] in *.
    split.
    + apply idPrefix_identity; eauto.
    + apply N.leb_le.
      rewrite <- (numeric_order_spec _ _ _ Hnum (Hblk _ _ Hkv) (Hblk _ _ Hin')).
      apply str_le_iff. rewrite <- same_group_compare; eauto.
      now apply str_le_iff.
  - rewrite map_map.
    apply NoDup_map_coarser with (f := group_of); [|exact Hnd].
    intros x y. unfold group_of. cbn [dec id]. apply identity_idPrefix.
  - rewrite map_map.
    replace (map (fun x => datumToKey (id (dec x))) sel) with (keys sel).
    + now apply ascending_sorted.
    + unfold keys. apply map_ext_in. intros [k v] Hkv. cbn [dec id fst].
      symmetry. apply datumToKey_keyToDatum. eauto.
Qed.

(** * The insertion-ordered map *)

Lemma map_set_In (m : JsMap) (k v : string) : In (k, v) (map_set m k v).
Proof.
  induction m as [|[k' v'] m IH]; simpl; [now left|].
  destruct (String.eqb k' k) eqn:E.
  - apply String.eqb_eq in E. subst. now left.
  - now right.
Qed.

Lemma map_set_other (m : JsMap) (k v k0 v0 : string) :
  k0 <> k -> In (k0, v0) m -> In (k0, v0) (map_set m k v).
Proof.
  intros Hne. induction m as [|[k' v'] m IH]; simpl; [tauto|].
  intros [H | H].
  - injection H as -> ->.
    destruct (String.eqb k0 k) eqn:E; [|now left].
    apply String.eqb_eq in E. congruence.
  - destruct (String.eqb k' k); right; auto.
Qed.

Lemma map_set_inv (m : JsMap) (k v k0 v0 : string) :
  In (k0, v0) (map_set m k v) -> (k0 = k /\ v0 = v) \/ In (k0, v0) m.
Proof.
  induction m as [|[k' v'] m IH]; simpl.
  - intros [H | []]. injection H as <- <-. now left.
  - destruct (String.eqb k' k) eqn:E.
    + apply String.eqb_eq in E. subst k'.
      intros [H | H]; [injection H as <- <-; now left | right; now right].
    + intros [H | H]; [right; now left|].
      destruct (IH H) as [? | ?]; [now left | right; now right].
Qed.

Lemma map_set_keys (m : JsMap) (k v : string) :
  map fst (map_set m k v) =
  if in_dec string_dec k (map fst m) then map fst m else (map fst m ++ [k])%list.
Proof.
  induction m as [|[k' v'] m IH]; simpl; [reflexivity|].
  destruct (String.eqb k' k) eqn:E.
  - apply String.eqb_eq in E. subst k'.
    destruct (string_dec k k); [|congruence]. reflexivity.
  - apply String.eqb_neq in E. simpl. rewrite IH.
    destruct (string_dec k' k); [congruence|].
    destruct (in_dec string_dec k (map fst m)); reflexivity.
Qed.

Lemma map_set_NoDup (m : JsMap) (k v : string) :
  NoDup (map fst m) -> NoDup (map fst (map_set m k v)).
Proof.
  intros H. rewrite map_set_keys.
  destruct (in_dec string_dec k (map fst m)) as [Hin | Hin]; [exact H|].
  apply NoDup_app; [exact H | repeat constructor; intros [] | ].
  intros x Hx [<- | []]. contradiction.
Qed.

(** * The loop of [getIdsChanged] *)

Lemma collect_NoDup (ks : list string) :
  forall m0, NoDup (map fst m0) -> NoDup (map fst (collect ks m0)).
Proof.
  induction ks as [|k ks IH]; intros m0 H; simpl; [exact H|].
  apply IH. now apply map_set_NoDup.
Qed.

Lemma collect_keeps (ks : list string) :
  forall m0 n i, In (n, i) m0 ->
    (forall x, In x ks -> marker_nid x <> n) -> In (n, i) (collect ks m0).
Proof.
  induction ks as [|k ks IH]; intros m0 n i Hin Hfresh; simpl; [exact Hin|].
  apply IH.
  - apply map_set_other; [|exact Hin].
    intros E. apply (Hfresh k); [now left | now symmetry].
  - intros x Hx. apply Hfresh. now right.
Qed.

(** The entry of an identity is built from the last marker of that identity
    in the scan. *)
Lemma collect_last (ks : list string) :
  forall m0 k, In k ks ->
    exists l1 k' l2, ks = (l1 ++ k' :: l2)%list /\
      marker_nid k' = marker_nid k /\
      (forall x, In x l2 -> marker_nid x <> marker_nid k) /\
      In (marker_nid k, marker_id k') (collect ks m0).
Proof.
  induction ks as [|k1 ks IH]; intros m0 k Hin; [destruct Hin|].
  destruct (in_dec string_dec (marker_nid k) (map marker_nid ks)) as [Hl | Hl].
  - apply in_map_iff in Hl. destruct Hl as (x & Hx & Hxin).
    destruct (IH (getIdsChanged_step m0 k1) x Hxin)
      as (l1 & k' & l2 & -> & Hn & Hf & Hm).
    exists (k1 :: l1), k', l2. rewrite <- Hx. repeat split; auto.
  - assert (Hfresh : forall x, In x ks -> marker_nid x <> marker_nid k).
    { intros x Hx E. apply Hl. apply in_map_iff. now exists x. }
    destruct Hin as [-> | Hin]; [|now destruct (Hfresh k Hin)].
    exists [], k, ks. repeat split; auto.
    simpl. apply collect_keeps; [|exact Hfresh].
    apply map_set_In.
Qed.

Lemma collect_from (ks : list string) :
  forall m0 n i, In (n, i) (collect ks m0) ->
    In (n, i) m0 \/ exists k, In k ks /\ n = marker_nid k /\ i = marker_id k.
Proof.
  induction ks as [|k ks IH]; intros m0 n i H; simpl in H; [now left|].
  destruct (IH _ _ _ H) as [H' | (x & Hx & Hn & Hi)].
  - unfold getIdsChanged_step in H'.
    destruct (map_set_inv _ _ _ _ _ H') as [[-> ->] | H'']; [|now left].
    right. exists k. repeat split. now left.
  - right. exists x. repeat split; auto. now right.
Qed.

Lemma sorted_last_greatest (l1 l2 : list string) (k x : string) :
  StronglySorted key_lt (l1 ++ k :: l2) -> In x l1 -> str_lt x k = true.
Proof.
  induction l1 as [|a l1 IH]; simpl; intros Hs Hin; [destruct Hin|].
  inversion Hs as [|? ? Hs' Hf]; subst.
  destruct Hin as [<- | Hin]; [|auto].
  rewrite Forall_forall in Hf. apply Hf. apply in_or_app. right. now left.
Qed.

Lemma getIdsChanged_map_keys (changes : Level string) (lo hi : string) :
  getIdsChanged_map changes lo hi =
  collect (keys (iterator changes (range (lo ++ "/") (hi ++ "/~")))) [].
Proof.
  unfold getIdsChanged_map, collect, keys.
  generalize (@nil (string * string)) as m0.
  induction (iterator changes (range (lo ++ "/") (hi ++ "/~"))) as [|kv l IH];
    intros m0; simpl; [reflexivity | apply IH].
Qed.

(** * Markers *)

Lemma marker_pad_prefix (s : string) :
  exists rest, s = marker_pad s ++ rest.
Proof.
  unfold marker_pad. induction s as [|c s IH]; simpl.
  - now exists "".
  - destruct (Ascii.eqb c "/") eqn:E.
    + exists (String c s). reflexivity.
    + destruct IH as [rest IH].
      destruct (split "/" s) as [|seg segs].
      * exists s. reflexivity.
      * exists rest. simpl. now rewrite <- IH.
Qed.

Lemma marker_order (x k : string) :
  wf_marker x = true -> wf_marker k = true -> str_le x k = true ->
  (block_value (marker_pad x) <= block_value (marker_pad k))%N.
Proof.
  unfold wf_marker. intros Hx Hk Hle.
  apply andb_true_iff in Hx. destruct Hx as [Dx Lx].
  apply andb_true_iff in Hk. destruct Hk as [Dk Lk].
  apply Nat.eqb_eq in Lx, Lk.
  destruct (marker_pad_prefix x) as [rx Ex].
  destruct (marker_pad_prefix k) as [rk Ek].
  pose proof (digits_compare _ _ Dx Dk (eq_trans Lx (eq_sym Lk))) as Hc.
  apply str_le_iff in Hle. rewrite Ex, Ek in Hle.
  destruct (String.compare (marker_pad x) (marker_pad k)) eqn:E.
  - symmetry in Hc. apply N.compare_eq_iff in Hc. lia.
  - symmetry in Hc. apply N.lt_le_incl. exact Hc.
  - exfalso. apply Hle.
    rewrite compare_app_same_length; [exact E | congruence | congruence].
Qed.

Lemma marker_block_pad (k : string) :
  marker_block k = decodeNumber (marker_pad k).
Proof.
  unfold marker_block, marker_pad.
  pose proof (split_nonempty "/" k) as H.
  destruct (split "/" k); [congruence | reflexivity].
Qed.

Lemma window_In (changes : Level string) (lo hi k : string) :
  In k (keys (iterator changes (range (lo ++ "/") (hi ++ "/~")))) <->
  In k (keys changes) /\ in_window lo hi k = true.
Proof.
  unfold keys, in_window. rewrite !in_map_iff. split.
  - intros ([k' v] & <- & H). apply iterator_range_In in H.
    destruct H as (H1 & H2 & H3). split; [now exists (k', v)|].
    cbn [fst] in *. now rewrite H2, H3.
  - intros [([k' v] & <- & H) Hw]. exists (k', v). split; [reflexivity|].
    apply iterator_range_In. cbn [fst] in *.
    apply andb_true_iff in Hw. tauto.
Qed.

Lemma empty_window (changes : Level string) (lo hi : string) :
  String.length lo = String.length hi ->
  str_lt hi lo = true ->
  iterator changes (range (lo ++ "/") (hi ++ "/~")) = [].
Proof.
  intros Hlen Hlt. rewrite iterator_range.
  induction changes as [|[k v] changes IH]; simpl; [reflexivity|].
  rewrite IH.
  destruct (in_range (range (lo ++ "/") (hi ++ "/~")) k) eqn:E; [|reflexivity].
  exfalso. unfold in_range in E. simpl in E.
  apply andb_true_iff in E. destruct E as [E1 E2].
  pose proof (str_le_trans _ _ _ E1 E2) as Hle.
  apply str_le_iff in Hle. apply Hle.
  apply str_lt_iff in Hlt.
  apply compare_gt_lt.
  rewrite compare_app_same_length; [exact Hlt | congruence | congruence].
Qed.

(** C3: over an ascending change index of ten-digit markers,
    [getIdsChanged] returns one key per identity that has a marker in the
    window, and that key is built from the identity's last marker in the
    scan: every marker of the identity in the window sorts at or before it
    and has a block number no greater than the one returned (the latest in
    the window, not the earliest). *)
Theorem getIdsChanged_keeps_latest
    (changes : Level string) (from : string) (to : option string) :
  ordered changes -> markers_ok changes ->
  String.length from <= MAX_LENGTH ->
  String.length (nullish to from) <= MAX_LENGTH ->
  exists lo hi ids,
    encodeNumber from = Ok lo /\
    encodeNumber (nullish to from) = Ok hi /\
    getIdsChanged changes from to = Ok (map snd ids) /\
    NoDup (map fst ids) /\
    (forall n i, In (n, i) ids ->
       exists k, In k (keys changes) /\ in_window lo hi k = true /\
         n = marker_nid k /\ i = marker_id k) /\
    (forall k, In k (keys changes) -> in_window lo hi k = true ->
       exists k', In k' (keys changes) /\ in_window lo hi k' = true /\
         marker_nid k' = marker_nid k /\
         In (marker_nid k, marker_id k') ids /\
         (forall x, In x (keys changes) -> in_window lo hi x = true ->
            marker_nid x = marker_nid k ->
            str_le x k' = true /\
            (block_value (marker_pad x) <= block_value (marker_block k'))%N)).
Proof.
  intros Hord Hwf Hf Ht.
  exists (padStart from MAX_LENGTH "0"), (padStart (nullish to from) MAX_LENGTH "0").
  set (lo := padStart from MAX_LENGTH "0").
  set (hi := padStart (nullish to from) MAX_LENGTH "0").
  exists (getIdsChanged_map changes lo hi).
  split; [now apply encodeNumber_ok|].
  split; [now apply encodeNumber_ok|].
  split.
  { unfold getIdsChanged. cbv zeta.
    rewrite (encodeNumber_ok from Hf), (encodeNumber_ok _ Ht). reflexivity. }
  rewrite getIdsChanged_map_keys.
  set (ks := keys (iterator changes (range (lo ++ "/") (hi ++ "/~")))).
  assert (Hks : StronglySorted key_lt ks).
  { now apply iterator_range_sorted. }
  assert (Hm : forall k, In k (keys changes) -> wf_marker k = true).
  { intros k Hk. unfold keys in Hk. apply in_map_iff in Hk.
    destruct Hk as (kv & <- & Hkv).
    unfold markers_ok in Hwf. rewrite forallb_forall in Hwf. now apply Hwf. }
  split; [|split].
  - apply collect_NoDup. constructor.
  - intros n i Hin. destruct (collect_from ks [] n i Hin) as [[] | (k & Hk & -> & ->)].
    exists k. apply window_In in Hk. tauto.
  - intros k Hk Hw.
    assert (Hin : In k ks) by (apply window_In; tauto).
    destruct (collect_last ks [] k Hin) as (l1 & k' & l2 & Eks & Hn & Hfresh & Hm').
    assert (Hin' : In k' ks).
    { rewrite Eks. apply in_or_app. right. now left. }
    pose proof (proj1 (window_In _ _ _ _) Hin') as [Hk1 Hk2].
    exists k'. repeat split; auto.
    + assert (Hx : In x ks) by (apply window_In; tauto).
      rewrite Eks in Hx. apply in_app_or in Hx.
      destruct Hx as [Hx | [<- | Hx]].
      * apply str_lt_le. apply (sorted_last_greatest l1 l2 k' x); [|exact Hx].
        now rewrite <- Eks.
      * apply str_le_refl.
      * now destruct (Hfresh x Hx).
    + assert (Hx : In x ks) by (apply window_In; tauto).
      assert (Hle : str_le x k' = true).
      { rewrite Eks in Hx. apply in_app_or in Hx.
        destruct Hx as [Hx | [<- | Hx]].
        * apply str_lt_le. apply (sorted_last_greatest l1 l2 k' x); [|exact Hx].
          now rewrite <- Eks.
        * apply str_le_refl.
        * now destruct (Hfresh x Hx). }
      rewrite marker_block_pad, decodeNumber_value.
      * apply marker_order; auto.
      * pose proof (Hm k' Hk1) as W. unfold wf_marker in W.
        now apply andb_true_iff in W.
Qed.

(** C4: when both bounds are decimal numbers of at most ten digits and
    [to] is below [from], [getIdsChanged] does not fail: the scanned range
    is empty and the answer is the empty list, whatever the change index
    holds. *)
Theorem getIdsChanged_reversed_range
    (changes : Level string) (from to : string) :
  all_digits from = true -> all_digits to = true ->
  String.length from <= MAX_LENGTH -> String.length to <= MAX_LENGTH ->
  (block_value to < block_value from)%N ->
  getIdsChanged changes from (Some to) = Ok [].
Proof.
  intros Df Dt Lf Lt Hlt.
  unfold getIdsChanged. cbv zeta. cbn [nullish].
  rewrite (encodeNumber_ok from Lf), (encodeNumber_ok to Lt).
  unfold getIdsChanged_map. rewrite empty_window; [reflexivity | |].
  - now rewrite !padStart_length.
  - apply str_lt_iff. unfold padStart.
    rewrite digits_compare.
    + rewrite !zeros_value by assumption. exact Hlt.
    + now apply zeros_digits.
    + now apply zeros_digits.
    + rewrite !append_length, !repeat_char_length. lia.
Qed.

Lemma canonical_digits (n : string) : canonical n = true -> all_digits n = true.
Proof.
  destruct n as [|c s]; [discriminate|]. unfold canonical.
  intros H. now apply andb_true_iff in H.
Qed.

Lemma toString_canonical (n : string) :
  canonical n = true -> toString (block_value n) = n.
Proof.
  intros Hc. pose proof (canonical_digits n Hc) as Hd.
  destruct (digits_uint n Hd) as (d & Hu & _).
  unfold block_value, Number, toString. rewrite Hu. cbn [option_map].
  rewrite DecimalN.Unsigned.to_of.
  assert (Hn : unorm d = d).
  { destruct n as [|c s]; [discriminate|].
    unfold canonical in Hc. apply andb_true_iff in Hc. destruct Hc as [_ Hc].
    simpl in Hu. destruct (NilEmpty.uint_of_string s) as [d0|] eqn:E0;
      [|destruct c as [[|] [|] [|] [|] [|] [|] [|] [|]]; discriminate].
    destruct (uint_of_char_spec c d0 d Hu)
      as [[-> ->]|[[-> ->]|[[-> ->]|[[-> ->]|[[-> ->]|[[-> ->]|[[-> ->]|[[-> ->]|[[-> ->]|[-> ->]]]]]]]]]];
      try reflexivity.
    simpl in Hc. apply String.eqb_eq in Hc. subst s.
    simpl in E0. injection E0 as <-. reflexivity. }
  rewrite Hn. now apply NilEmpty.sus.
Qed.

Lemma encodeNumber_canonical (n : string) :
  canonical n = true -> String.length n <= MAX_LENGTH ->
  exists padded, encodeNumber n = Ok padded /\
    String.length padded = MAX_LENGTH /\
    all_digits padded = true /\
    block_value padded = block_value n /\
    decodeNumber padded = n.
Proof.
  intros Hc Hl. pose proof (canonical_digits n Hc) as Hd.
  exists (padStart n MAX_LENGTH "0"). split; [now apply encodeNumber_ok|].
  split; [now apply padStart_length|].
  unfold padStart. split; [now apply zeros_digits|].
  split; [now apply zeros_value|].
  unfold decodeNumber.
  rewrite (Number_digits _ (zeros_digits _ n Hd)), (zeros_value _ n Hd).
  now apply toString_canonical.
Qed.

(** C5: a canonical decimal block number of at most ten digits is encoded
    to exactly ten characters with the same value, and decoding the result
    gives the number back; a string of more than ten characters makes
    [encodeNumber] throw instead of padding or cutting. *)
Theorem encodeNumber_round_trip (n : string) :
  (canonical n = true -> String.length n <= MAX_LENGTH ->
   exists padded, encodeNumber n = Ok padded /\
     String.length padded = MAX_LENGTH /\
     block_value padded = block_value n /\
     decodeNumber padded = n) /\
  (MAX_LENGTH < String.length n ->
   encodeNumber n =
   Throw (Error "Database cannot encode number greater than 10 digits")).
Proof.
  split.
  - intros Hc Hl.
    destruct (encodeNumber_canonical n Hc Hl) as (p & H1 & H2 & _ & H3 & H4).
    now exists p.
  - intros Hl. unfold encodeNumber.
    destruct (Nat.ltb_spec MAX_LENGTH (String.length n)); [reflexivity | lia].
Qed.

Lemma encodeNumber_round_trip_witness :
  decodeNumber "0015570834" = "15570834" /\
  encodeNumber "15570834000" =
  Throw (Error "Database cannot encode number greater than 10 digits").
Proof.
  split.
  - destruct (proj1 (encodeNumber_round_trip "15570834")) as (p & E & _ & _ & D).
    + reflexivity.
    + unfold MAX_LENGTH. simpl. lia.
    + vm_compute in E. injection E as <-. exact D.
  - apply (proj2 (encodeNumber_round_trip "15570834000")).
    unfold MAX_LENGTH. simpl. lia.
Defined.

(** * Rebuilding the change index *)

Lemma createChangeIndex_loop_spec (iter : list (string * Track)) :
  forall (count : nat) (db : DB),
    level (snd (createChangeIndex_loop iter count db)) = level db /\
    changeIndex (snd (createChangeIndex_loop iter count db)) =
      put_all (written iter) (changeIndex db).
Proof.
  induction iter as [|[k v] iter IH]; intros count db; simpl.
  - split; reflexivity.
  - unfold bind at 1. unfold lift at 1.
    destruct (datumToChangeKey (keyToDatum k)) as [ck|e]; simpl.
    + unfold bind, change_put. simpl.
      specialize (IH (S count)
        {| level := level db;
           changeIndex := level_put (changeIndex db) ck "";
           journal := (journal db ++ [PutChange ck ""])%list |}).
      exact IH.
    + split; reflexivity.
Qed.

Lemma createChangeIndex_loop_result (iter : list (string * Track)) :
  forall (count : nat) (db db' : DB),
    fst (createChangeIndex_loop iter count db) =
    fst (createChangeIndex_loop iter count db').
Proof.
  induction iter as [|[k v] iter IH]; intros count db db'; simpl.
  - reflexivity.
  - unfold bind at 1 3. unfold lift at 1 2.
    destruct (datumToChangeKey (keyToDatum k)) as [ck|e]; simpl.
    + unfold bind, change_put. simpl. apply IH.
    + reflexivity.
Qed.

Lemma put_all_get (cks : list string) :
  forall (changes : Level string) (k : string),
    level_get (put_all cks changes) k =
    if in_dec string_dec k cks then Some "" else level_get changes k.
Proof.
  induction cks as [|ck cks IH]; intros changes k; simpl; [reflexivity|].
  unfold put_all in *. simpl. rewrite IH.
  destruct (in_dec string_dec k cks) as [H | H].
  - destruct (string_dec ck k); reflexivity.
  - destruct (string_dec ck k) as [-> | Hne].
    + apply level_get_put_same.
    + apply level_get_put_other. congruence.
Qed.

Lemma put_all_keeps_keys (cks : list string) :
  forall (changes : Level string) (k : string),
    In k (keys changes) -> In k (keys (put_all cks changes)).
Proof.
  induction cks as [|ck cks IH]; intros changes k H; simpl; [exact H|].
  apply IH. now apply level_put_keeps_keys.
Qed.

Lemma put_all_sorted (cks : list string) :
  forall changes : Level string,
    StronglySorted key_lt (keys changes) ->
    StronglySorted key_lt (keys (put_all cks changes)).
Proof.
  induction cks as [|ck cks IH]; intros changes H; simpl; [exact H|].
  apply IH. now apply level_put_sorted.
Qed.

Lemma put_all_again (cks : list string) :
  forall changes : Level string,
    StronglySorted key_lt (keys changes) ->
    (forall ck, In ck cks -> level_get changes ck = Some "") ->
    put_all cks changes = changes.
Proof.
  induction cks as [|ck cks IH]; intros changes Hs Hp; simpl; [reflexivity|].
  unfold put_all in *. simpl.
  rewrite (level_put_present changes ck ""); auto.
  - apply IH; auto. intros x Hx. apply Hp. now right.
  - apply Hp. now left.
Qed.

(** C9: rebuilding leaves the tracks store alone and never removes a
    marker; a second rebuild right after the first ends with the same result
    and a change index with the same content, key by key, and the very same
    store when the change index was in ascending order. *)
Theorem createChangeIndex_idempotent (db : DB) :
  level (after createChangeIndex db) = level db /\
  (forall k, In k (keys (changeIndex db)) ->
     In k (keys (changeIndex (after createChangeIndex db)))) /\
  (forall k,
     level_get (changeIndex (after createChangeIndex (after createChangeIndex db))) k =
     level_get (changeIndex (after createChangeIndex db)) k) /\
  fst (createChangeIndex (after createChangeIndex db)) = fst (createChangeIndex db) /\
  (ordered (changeIndex db) ->
   changeIndex (after createChangeIndex (after createChangeIndex db)) =
   changeIndex (after createChangeIndex db)).
Proof.
  unfold after, createChangeIndex.
  set (iter := iterator (level db) no_options).
  destruct (createChangeIndex_loop_spec iter 0 db) as [Hl Hc].
  set (db1 := snd (createChangeIndex_loop iter 0 db)) in *.
  rewrite Hl. fold iter.
  destruct (createChangeIndex_loop_spec iter 0 db1) as [Hl2 Hc2].
  split; [reflexivity|]. split; [|split; [|split]].
  - intros k Hk. rewrite Hc. now apply put_all_keeps_keys.
  - intros k. rewrite Hc2, Hc, !put_all_get.
    destruct (in_dec string_dec k (written iter)); reflexivity.
  - apply createChangeIndex_loop_result.
  - intros Ho. rewrite Hc2, Hc. apply put_all_again.
    + apply put_all_sorted. now apply ascending_sorted.
    + intros ck Hck. rewrite put_all_get.
      destruct (in_dec string_dec ck (written iter)); [reflexivity | contradiction].
Qed.

(** * Inserting and deleting *)

Lemma datumToChangeKey_ok (datum : Datum) (ck : string) :
  datumToChangeKey datum = Ok ck ->
  exists b padded, blockNumber datum = Some b /\ encodeNumber b = Ok padded /\
    ck = padded ++ "/" ++ tpl (chainId datum) ++ "/" ++
         tpl (address datum) ++ "/" ++ tpl (tokenId datum).
Proof.
  unfold datumToChangeKey.
  destruct (blockNumber datum) as [b|]; [|discriminate].
  destruct (encodeNumber b) as [padded|e] eqn:E; [|discriminate].
  intros H. injection H as <-. exists b, padded. auto.
Qed.

Lemma digits_no_sep (s : string) : all_digits s = true -> sf s.
Proof.
  unfold sf. induction s as [|c s IH]; simpl; [reflexivity|].
  intros H. apply andb_true_iff in H. destruct H as [Hc Hs].
  rewrite (IH Hs), orb_false_r.
  destruct c as [[|] [|] [|] [|] [|] [|] [|] [|]]; try discriminate Hc; reflexivity.
Qed.

Lemma marker_names_version (c a t b : string) :
  sf c -> sf a -> sf t -> canonical b = true -> String.length b <= MAX_LENGTH ->
  exists ck,
    datumToChangeKey (mkDatum (Some c) (Some a) (Some t) (Some b)) = Ok ck /\
    wf_marker ck = true /\
    marker_id ck = datumToKey (mkDatum (Some c) (Some a) (Some t) (Some b)).
Proof.
  intros Hc Ha Ht Hb Hl.
  destruct (encodeNumber_canonical b Hb Hl) as (p & Hp & Hlen & Dp & Hv & Hd).
  exists (p ++ "/" ++ c ++ "/" ++ a ++ "/" ++ t).
  assert (Hs : split "/" (p ++ "/" ++ c ++ "/" ++ a ++ "/" ++ t) = [p; c; a; t]).
  { rewrite split_key by (auto using digits_no_sep). now rewrite split_free. }
  split; [|split].
  - unfold datumToChangeKey. cbn [blockNumber]. now rewrite Hp.
  - unfold wf_marker, marker_pad. rewrite Hs, Dp, Hlen. reflexivity.
  - unfold marker_id, marker_nid, marker_block. rewrite Hs.
    cbn [nth_error tpl]. rewrite Hd. unfold datumToKey. cbn.
    repeat (rewrite append_assoc; simpl). reflexivity.
Qed.

Lemma padStart_no_sep (s : string) (n : nat) :
  sf s -> sf (padStart s n "0").
Proof.
  unfold sf, padStart. intros H.
  induction (n - String.length s) as [|m IH]; simpl; [exact H | exact IH].
Qed.

(** C6: a successful [insert] issues two writes, first the put of the
    primary key with the payload, then the put of the change marker of the
    same datum: the marker key is the block number of the datum padded with
    zeros to ten characters, followed by its chainId, address and tokenId
    (a decimal block number keeps its value, and with slash-free fields the
    marker splits back into that padded block and that identity).
    Afterwards each store holds its new entry and every other key of either
    store reads as before. *)
Theorem insert_writes_both_indexes
    (datum : Datum) (data : Track) (db db' : DB) :
  insert datum data db = (Ok tt, db') ->
  exists b padded ck,
    blockNumber datum = Some b /\ String.length b <= MAX_LENGTH /\
    encodeNumber b = Ok padded /\
    padded = padStart b MAX_LENGTH "0" /\
    String.length padded = MAX_LENGTH /\
    (all_digits b = true ->
     all_digits padded = true /\ block_value padded = block_value b) /\
    ck = padded ++ "/" ++ tpl (chainId datum) ++ "/" ++
         tpl (address datum) ++ "/" ++ tpl (tokenId datum) /\
    (sf b -> sf (tpl (chainId datum)) -> sf (tpl (address datum)) ->
     sf (tpl (tokenId datum)) ->
     marker_pad ck = padded /\ marker_nid ck = idPrefix datum) /\
    journal db' =
      (journal db ++ [PutTrack (datumToKey datum) data; PutChange ck ""])%list /\
    level db' = level_put (level db) (datumToKey datum) data /\
    changeIndex db' = level_put (changeIndex db) ck "" /\
    level_get (level db') (datumToKey datum) = Some data /\
    level_get (changeIndex db') ck = Some "" /\
    (forall k, k <> datumToKey datum ->
       level_get (level db') k = level_get (level db) k) /\
    (forall k, k <> ck ->
       level_get (changeIndex db') k = level_get (changeIndex db) k).
Proof.
  unfold insert, bind, track_put, lift, change_put. simpl.
  destruct (datumToChangeKey datum) as [ck|e] eqn:E; [|discriminate].
  intros H. injection H as <-.
  destruct (datumToChangeKey_ok datum ck E) as (b & padded & Hb & Hp & Hck).
  assert (Hl : String.length b <= MAX_LENGTH).
  { unfold encodeNumber in Hp.
    destruct (Nat.ltb_spec MAX_LENGTH (String.length b)); [discriminate | lia]. }
  assert (Hpad : padded = padStart b MAX_LENGTH "0").
  { rewrite (encodeNumber_ok b Hl) in Hp. now injection Hp. }
  exists b, padded, ck. cbn [level changeIndex journal].
  split; [exact Hb|]. split; [exact Hl|]. split; [exact Hp|].
  split; [exact Hpad|].
  split; [rewrite Hpad; now apply padStart_length|].
  split.
  { intros Db. rewrite Hpad. unfold padStart.
    split; [now apply zeros_digits | now apply zeros_value]. }
  split; [exact Hck|].
  split.
  { intros Sb Sc Sa St.
    assert (Hs : split "/" ck =
                 [padded; tpl (chainId datum); tpl (address datum);
                  tpl (tokenId datum)]).
    { rewrite Hck, split_key; auto.
      - now rewrite split_free.
      - rewrite Hpad. now apply padStart_no_sep. }
    unfold marker_pad, marker_nid, idPrefix. rewrite Hs. split; reflexivity. }
  repeat split.
  - now rewrite <- app_assoc.
  - apply level_get_put_same.
  - apply level_get_put_same.
  - intros k Hk. now apply level_get_put_other.
  - intros k Hk. now apply level_get_put_other.
Qed.

(** C7: for a block number of at most ten characters [del] succeeds
    whether or not the primary entry exists: it issues the delete on the
    tracks store and then the delete of the marker, after which neither key
    is present and every other key reads as before; where the primary entry
    was already absent the tracks store is unchanged. *)
Theorem del_never_reports_absence (datum : Datum) (db : DB) (b : string) :
  blockNumber datum = Some b -> String.length b <= MAX_LENGTH ->
  exists ck db',
    datumToChangeKey datum = Ok ck /\
    del datum db = (Ok tt, db') /\
    journal db' = (journal db ++ [DelTrack (datumToKey datum); DelChange ck])%list /\
    level_get (level db') (datumToKey datum) = None /\
    level_get (changeIndex db') ck = None /\
    (forall k, k <> datumToKey datum ->
       level_get (level db') k = level_get (level db) k) /\
    (forall k, k <> ck ->
       level_get (changeIndex db') k = level_get (changeIndex db) k) /\
    (level_get (level db) (datumToKey datum) = None -> level db' = level db) /\
    (level_get (changeIndex db) ck = None -> changeIndex db' = changeIndex db).
Proof.
  intros Hb Hl.
  assert (E : datumToChangeKey datum =
              Ok (padStart b MAX_LENGTH "0" ++ "/" ++ tpl (chainId datum) ++ "/" ++
                  tpl (address datum) ++ "/" ++ tpl (tokenId datum))).
  { unfold datumToChangeKey. now rewrite Hb, (encodeNumber_ok b Hl). }
  eexists. eexists. split; [exact E|].
  unfold del, bind, track_del, lift, change_del. simpl. rewrite E.
  split; [reflexivity|]. cbn [level changeIndex journal].
  repeat split.
  - now rewrite <- app_assoc.
  - apply level_get_del_same.
  - apply level_get_del_same.
  - intros k Hk. now apply level_get_del_other.
  - intros k Hk. now apply level_get_del_other.
  - apply level_get_absent.
  - apply level_get_absent.
Qed.

(** * The empty scan of [getMany] *)

Lemma filter_none {A : Type} (f : A -> bool) (l : list A) :
  (forall x, In x l -> f x = false) -> filter f l = [].
Proof.
  induction l as [|a l IH]; simpl; intros H; [reflexivity|].
  rewrite (H a) by now left. apply IH. intros x Hx. apply H. now right.
Qed.

(** C10: when no stored key falls in the prefix range of the query,
    [getMany] throws the error "Couldn't find any items for the given DB
    query" before yielding anything; as soon as one stored key falls in the
    range it returns a sequence instead (possibly an empty one). *)
Theorem getMany_empty_range_throws (lvl : Level Track) (datum : Datum) :
  ((forall k v, In (k, v) lvl -> in_range (getMany_filter datum) k = false) ->
   getMany lvl datum =
   Throw (Error "Couldn't find any items for the given DB query")) /\
  (forall k v, In (k, v) lvl -> in_range (getMany_filter datum) k = true ->
   exists out, getMany lvl datum = Ok out).
Proof.
  unfold getMany.
  assert (Hit : iterator lvl (getMany_filter datum) =
                filter (fun kv => in_range (getMany_filter datum) (fst kv)) lvl).
  { unfold getMany_filter. destruct (truthy (address datum)); reflexivity. }
  rewrite Hit. split.
  - intros Hno. rewrite filter_none; [reflexivity|].
    intros [k v] Hin. now apply (Hno k v).
  - intros k v Hin Hr.
    destruct (filter (fun kv => in_range (getMany_filter datum) (fst kv)) lvl)
      as [|[k0 v0] iter] eqn:E.
    + assert (H : In (k, v) []) by (rewrite <- E; now apply filter_In).
      destruct H.
    + eexists. reflexivity.
Qed.

(** * Decoding any key *)

(** C8: [keyToDatum] returns a record for every key: there is always a
    first segment; with fewer than four segments the block number (and any
    other missing field) is undefined; with four or more the record holds
    the first four segments and ignores the rest. *)
Theorem keyToDatum_any_segment_count (key : string) :
  1 <= List.length (split "/" key) /\
  chainId (keyToDatum key) <> None /\
  (List.length (split "/" key) < 4 -> blockNumber (keyToDatum key) = None) /\
  (4 <= List.length (split "/" key) ->
   exists c a t b,
     keyToDatum key = mkDatum (Some c) (Some a) (Some t) (Some b) /\
     firstn 4 (split "/" key) = [c; a; t; b]).
Proof.
  unfold keyToDatum. pose proof (split_nonempty "/" key) as Hne.
  destruct (split "/" key) as [|c [|a [|t [|b rest]]]]; simpl;
    try congruence; repeat split; try lia; try discriminate; try reflexivity.
  intros _. now exists c, a, t, b.
Qed.

(** * The reverse scan of [getOne] *)

Lemma numeric_order_same_length (n : nat) (bs : list string) :
  (forall x, In x bs -> all_digits x = true /\ String.length x = n) ->
  numeric_order bs = true.
Proof.
  intros H. unfold numeric_order.
  apply forallb_forall. intros x Hx. apply forallb_forall. intros y Hy.
  destruct (H x Hx) as [Dx Lx]. destruct (H y Hy) as [Dy Ly].
  pose proof (digits_compare x y Dx Dy (eq_trans Lx (eq_sym Ly))) as Hc.
  unfold str_le, String.leb, N.leb. rewrite Hc.
  destruct (block_value x ?= block_value y)%N; reflexivity.
Qed.

Lemma truthy_Some (s : string) : s <> "" -> truthy (Some s) = true.
Proof.
  intros H. simpl. destruct (String.eqb s "") eqn:E; [|reflexivity].
  apply String.eqb_eq in E. contradiction.
Qed.

Lemma sorted_rev_head {V : Type} (l r : list (string * V)) (y : string * V) :
  StronglySorted key_lt (keys l) -> List.rev l = y :: r ->
  In y l /\ forall x, In x l -> str_le (fst x) (fst y) = true.
Proof.
  intros Hs Hr.
  assert (El : l = (List.rev r ++ [y])%list).
  { rewrite <- (rev_involutive l), Hr. reflexivity. }
  split.
  - rewrite El. apply in_or_app. right. now left.
  - intros x Hx. rewrite El in Hx, Hs. apply in_app_or in Hx.
    destruct Hx as [Hx | [<- | []]]; [|apply str_le_refl].
    apply str_lt_le. unfold keys in Hs. rewrite map_app in Hs. simpl in Hs.
    apply (sorted_last_greatest (map fst (List.rev r)) [] (fst y) (fst x));
      [exact Hs|].
    now apply in_map.
Qed.

Lemma first_hit_spec (lvl : Level Track) (lo hi : string) :
  ordered lvl ->
  match first_hit lvl {| gte := Some lo; lte := Some hi;
                         reverse := true; limit := Some 1 |} with
  | Ok r =>
      exists k, In (k, value r) lvl /\ id r = keyToDatum k /\
        str_le lo k = true /\ str_le k hi = true /\
        forall k' v', In (k', v') lvl -> str_le lo k' = true ->
          str_le k' hi = true -> str_le k' k = true
  | Throw e =>
      e = LEVEL_NOT_FOUND "Level not found" /\
      forall k' v', In (k', v') lvl -> str_le lo k' = true ->
        str_le k' hi = false
  end.
Proof.
  intros Hord. unfold first_hit, iterator. cbn [reverse limit].
  set (hits := filter (fun kv => in_range
          {| gte := Some lo; lte := Some hi; reverse := true; limit := Some 1 |}
          (fst kv)) lvl).
  assert (Hhits : forall kv, In kv hits <->
            In kv lvl /\ str_le lo (fst kv) = true /\ str_le (fst kv) hi = true).
  { intros kv. unfold hits. rewrite filter_In. unfold in_range. simpl.
    now rewrite andb_true_iff. }
  assert (Hs : StronglySorted key_lt (keys hits)).
  { unfold hits.
    rewrite (keys_filter (fun k => in_range
          {| gte := Some lo; lte := Some hi; reverse := true; limit := Some 1 |} k)).
    apply sorted_filter. now apply ascending_sorted. }
  destruct (List.rev hits) as [|[k v] r] eqn:Er; simpl.
  - split; [reflexivity|]. intros k' v' Hin Hlo.
    destruct (str_le k' hi) eqn:E; [|reflexivity].
    assert (H : In (k', v') hits) by (apply Hhits; auto).
    assert (Hnil : hits = []).
    { rewrite <- (rev_involutive hits), Er. reflexivity. }
    rewrite Hnil in H. destruct H.
  - destruct (sorted_rev_head hits r (k, v) Hs Er) as [Hin Hmax].
    apply Hhits in Hin. destruct Hin as (Hin & Hlo & Hhi).
    exists k. cbn [fst] in *. repeat split; auto.
    intros k' v' Hin' Hlo' Hhi'.
    apply (Hmax (k', v')). apply Hhits. auto.
Qed.

(** The keys of one identity are those that extend its prefix. *)
Lemma identity_keys (c a t k : string) :
  sf c -> sf a -> sf t -> wf_key k = true ->
  (identity (keyToDatum k) = (Some c, Some a, Some t) <->
   k = (c ++ "/" ++ a ++ "/" ++ t ++ "/") ++ block (keyToDatum k)).
Proof.
  intros Hc Ha Ht W.
  destruct (keyToDatum_wf k W) as (c' & a' & t' & b' & E & Hk & Hc' & Ha' & Ht' & Hb').
  rewrite E. unfold identity, block. cbn [chainId address tokenId blockNumber or_empty].
  split.
  - intros H. injection H as -> -> ->. rewrite Hk.
    repeat (rewrite append_assoc; simpl). reflexivity.
  - intros H. rewrite Hk in H.
    assert (H' : c' ++ "/" ++ a' ++ "/" ++ t' ++ "/" ++ b' =
                 c ++ "/" ++ a ++ "/" ++ t ++ "/" ++ b').
    { rewrite H at 1. repeat (rewrite append_assoc; simpl). reflexivity. }
    apply (f_equal (split "/")) in H'.
    rewrite !split_key in H' by assumption.
    now injection H' as -> -> ->.
Qed.

Lemma prefix_le (p z : string) : str_le p (p ++ z) = true.
Proof.
  apply str_le_iff. induction p as [|c p IH]; simpl.
  - destruct z; simpl; congruence.
  - now rewrite ascii_compare_refl.
Qed.

Lemma append_nil_r (s : string) : s ++ "" = s.
Proof. induction s as [|c s IH]; simpl; [reflexivity | now rewrite IH]. Qed.

Lemma key_of_prefix (c a t z : string) :
  sf c -> sf a -> sf t ->
  wf_key ((c ++ "/" ++ a ++ "/" ++ t ++ "/") ++ z) = true ->
  keyToDatum ((c ++ "/" ++ a ++ "/" ++ t ++ "/") ++ z) = datum_of c a t z.
Proof.
  intros Hc Ha Ht W.
  assert (E : (c ++ "/" ++ a ++ "/" ++ t ++ "/") ++ z =
              c ++ "/" ++ a ++ "/" ++ t ++ "/" ++ z).
  { repeat (rewrite append_assoc; simpl). reflexivity. }
  rewrite E in *. unfold wf_key in W. apply Nat.eqb_eq in W.
  unfold keyToDatum. rewrite split_key in * by assumption.
  pose proof (concat_split "/" z) as Hj.
  destruct (split "/" z) as [|s [|s' l]]; simpl in W; try discriminate.
  simpl in Hj. subst s. reflexivity.
Qed.

Lemma digits_le_tilde (z : string) : all_digits z = true -> str_le z "~" = true.
Proof.
  destruct z as [|c z]; [reflexivity|]. simpl. intros H.
  apply andb_true_iff in H. destruct H as [Hc _].
  unfold str_le, String.leb. simpl.
  destruct c as [[|] [|] [|] [|] [|] [|] [|] [|]]; try discriminate Hc; reflexivity.
Qed.

Section GetOne.

Variables (lvl : Level Track) (c a t : string).

Hypothesis lvl_ordered : ordered lvl.
Hypothesis lvl_well_formed : well_formed lvl.
Hypothesis c_field : sf c /\ c <> "".
Hypothesis a_field : sf a /\ a <> "".
Hypothesis t_field : sf t /\ t <> "".

Let p : string := c ++ "/" ++ a ++ "/" ++ t ++ "/".

Lemma in_group_key (k : string) (v : Track) :
  In (k, v) lvl ->
  identity (keyToDatum k) = (Some c, Some a, Some t) ->
  k = p ++ block (keyToDatum k) /\ str_le p k = true.
Proof.
  intros Hin Hid.
  assert (W : wf_key k = true) by (now apply well_formed_In with lvl v).
  assert (E : k = p ++ block (keyToDatum k)).
  { apply identity_keys; [apply c_field | apply a_field | apply t_field | | ]; auto. }
  split; [exact E|]. rewrite E at 1. unfold p. apply prefix_le.
Qed.

Lemma in_range_key (k : string) (v : Track) (hi : string) :
  In (k, v) lvl -> str_le p k = true -> str_le k (p ++ hi) = true ->
  keyToDatum k = datum_of c a t (block (keyToDatum k)) /\
  k = p ++ block (keyToDatum k).
Proof.
  intros Hin Hlo Hhi.
  assert (W : wf_key k = true) by (now apply well_formed_In with lvl v).
  rewrite <- (append_nil_r p) in Hlo.
  destruct (between_prefix p "" hi k Hlo Hhi) as [z ->].
  unfold p in *.
  rewrite (key_of_prefix c a t z); [|apply c_field|apply a_field|apply t_field|exact W].
  split; reflexivity.
Qed.

(** Where byte-wise and numeric order agree on the block numbers of the
    store and the cutoff, [getOne] with a cutoff returns the version of the
    identity with the greatest block number not above the cutoff, and
    throws the not-found error when the identity has none. *)
Lemma getOne_greatest_within_cutoff (cutoff : string) :
  cutoff <> "" ->
  numeric_order (cutoff :: blocks lvl) = true ->
  match getOne lvl (datum_of c a t cutoff) with
  | Ok r =>
      (exists k, In (k, value r) lvl /\ id r = keyToDatum k) /\
      identity (id r) = (Some c, Some a, Some t) /\
      (block_value (block (id r)) <= block_value cutoff)%N /\
      (forall k v, In (k, v) lvl ->
         identity (keyToDatum k) = (Some c, Some a, Some t) ->
         (block_value (block (keyToDatum k)) <= block_value cutoff)%N ->
         (block_value (block (keyToDatum k)) <= block_value (block (id r)))%N)
  | Throw e =>
      e = LEVEL_NOT_FOUND "Level not found" /\
      (forall k v, In (k, v) lvl ->
         identity (keyToDatum k) = (Some c, Some a, Some t) ->
         (block_value cutoff < block_value (block (keyToDatum k)))%N)
  end.
Proof.
  intros Hcut Hnum.
  assert (Hblk : forall k v, In (k, v) lvl ->
            In (block (keyToDatum k)) (cutoff :: blocks lvl)).
  { intros k v Hin. right. unfold blocks. apply in_map_iff. now exists (k, v). }
  assert (Hc0 : In cutoff (cutoff :: blocks lvl)) by now left.
  unfold getOne, datum_of. cbn [chainId address tokenId blockNumber tpl].
  rewrite !truthy_Some by (auto; apply c_field || apply a_field || apply t_field).
  cbn [andb]. fold p.
  pose proof (first_hit_spec lvl p (p ++ cutoff) lvl_ordered) as Hspec.
  destruct (first_hit lvl _) as [r|e].
  - destruct Hspec as (k & Hin & Hid & Hlo & Hhi & Hmax).
    destruct (in_range_key k (value r) cutoff Hin Hlo Hhi) as [Hd Hk].
    rewrite Hid. split; [now exists k|]. split; [now rewrite Hd|].
    assert (Hle : str_le (block (keyToDatum k)) cutoff = true).
    { apply str_le_iff. rewrite <- (compare_app p). rewrite <- Hk.
      now apply str_le_iff. }
    split.
    + apply N.leb_le.
      now rewrite <- (numeric_order_spec _ _ _ Hnum (Hblk _ _ Hin) Hc0).
    + intros k' v' Hin' Hid' Hle'.
      destruct (in_group_key k' v' Hin' Hid') as [Hk' Hlo'].
      assert (Hs : str_le (block (keyToDatum k')) cutoff = true).
      { rewrite (numeric_order_spec _ _ _ Hnum (Hblk _ _ Hin') Hc0).
        now apply N.leb_le. }
      assert (Hhi' : str_le k' (p ++ cutoff) = true).
      { apply str_le_iff. rewrite Hk', compare_app. now apply str_le_iff. }
      pose proof (Hmax k' v' Hin' Hlo' Hhi') as Hkk.
      apply N.leb_le.
      rewrite <- (numeric_order_spec _ _ _ Hnum (Hblk _ _ Hin') (Hblk _ _ Hin)).
      apply str_le_iff. rewrite <- (compare_app p), <- Hk, <- Hk'.
      now apply str_le_iff.
  - destruct Hspec as [-> Hnone]. split; [reflexivity|].
    intros k' v' Hin' Hid'.
    destruct (in_group_key k' v' Hin' Hid') as [Hk' Hlo'].
    pose proof (Hnone k' v' Hin' Hlo') as Hf.
    assert (Hs : str_le (block (keyToDatum k')) cutoff = false).
    { unfold str_le, String.leb in *. rewrite Hk' in Hf.
      now rewrite compare_app in Hf. }
    rewrite (numeric_order_spec _ _ _ Hnum (Hblk _ _ Hin') Hc0) in Hs.
    now apply N.leb_gt in Hs.
Qed.

(** The same without a cutoff, for decimal block numbers: the greatest
    block number of the identity, or the not-found error when the identity
    has no version. *)
Lemma getOne_greatest_overall :
  (forall b, In b (blocks lvl) -> all_digits b = true) ->
  numeric_order (blocks lvl) = true ->
  match getOne lvl (mkDatum (Some c) (Some a) (Some t) None) with
  | Ok r =>
      (exists k, In (k, value r) lvl /\ id r = keyToDatum k) /\
      identity (id r) = (Some c, Some a, Some t) /\
      (forall k v, In (k, v) lvl ->
         identity (keyToDatum k) = (Some c, Some a, Some t) ->
         (block_value (block (keyToDatum k)) <= block_value (block (id r)))%N)
  | Throw e =>
      e = LEVEL_NOT_FOUND "Level not found" /\
      (forall k v, In (k, v) lvl ->
         identity (keyToDatum k) <> (Some c, Some a, Some t))
  end.
Proof.
  intros Hdig Hnum.
  assert (Hblk : forall k v, In (k, v) lvl -> In (block (keyToDatum k)) (blocks lvl)).
  { intros k v Hin. unfold blocks. apply in_map_iff. now exists (k, v). }
  assert (Hin_range : forall k v, In (k, v) lvl ->
            identity (keyToDatum k) = (Some c, Some a, Some t) ->
            str_le k (p ++ "~") = true).
  { intros k v Hin Hid. destruct (in_group_key k v Hin Hid) as [Hk _].
    apply str_le_iff. rewrite Hk, compare_app. apply str_le_iff.
    apply digits_le_tilde. apply Hdig. now apply Hblk with v. }
  unfold getOne. cbn [chainId address tokenId blockNumber tpl].
  rewrite !truthy_Some by (auto; apply c_field || apply a_field || apply t_field).
  cbn [andb truthy]. fold p.
  pose proof (first_hit_spec lvl p (p ++ "~") lvl_ordered) as Hspec.
  destruct (first_hit lvl _) as [r|e].
  - destruct Hspec as (k & Hin & Hid & Hlo & Hhi & Hmax).
    destruct (in_range_key k (value r) "~" Hin Hlo Hhi) as [Hd Hk].
    rewrite Hid. split; [now exists k|]. split; [now rewrite Hd|].
    intros k' v' Hin' Hid'.
    destruct (in_group_key k' v' Hin' Hid') as [Hk' Hlo'].
    pose proof (Hmax k' v' Hin' Hlo' (Hin_range k' v' Hin' Hid')) as Hkk.
    apply N.leb_le.
    rewrite <- (numeric_order_spec _ _ _ Hnum (Hblk _ _ Hin') (Hblk _ _ Hin)).
    apply str_le_iff. rewrite <- (compare_app p), <- Hk, <- Hk'.
    now apply str_le_iff.
  - destruct Hspec as [-> Hnone]. split; [reflexivity|].
    intros k' v' Hin' Hid'.
    destruct (in_group_key k' v' Hin' Hid') as [Hk' Hlo'].
    pose proof (Hnone k' v' Hin' Hlo') as Hf.
    rewrite (Hin_range k' v' Hin' Hid') in Hf. discriminate.
Qed.

End GetOne.

(** * The hypotheses are invariants of the database *)

Lemma forallb_put {V : Type} (f : string * V -> bool) (db : Level V)
    (k : string) (v : V) :
  forallb f db = true -> f (k, v) = true -> forallb f (level_put db k v) = true.
Proof.
  intros Hdb Hkv. apply forallb_forall. intros kv Hin.
  apply level_put_In in Hin. destruct Hin as [-> | Hin]; [exact Hkv|].
  rewrite forallb_forall in Hdb. now apply Hdb.
Qed.

Lemma insert_keeps_order (datum : Datum) (data : Track) (db : DB) :
  ordered (level db) -> ordered (changeIndex db) ->
  ordered (level (after (insert datum data) db)) /\
  ordered (changeIndex (after (insert datum data) db)).
Proof.
  intros Hl Hc. unfold after, insert, bind, track_put, lift, change_put. simpl.
  destruct (datumToChangeKey datum); simpl; split;
    auto using level_put_ordered.
Qed.

Lemma wf_key_datumToKey (c a t b : string) :
  sf c -> sf a -> sf t -> sf b -> wf_key (datumToKey (datum_of c a t b)) = true.
Proof.
  intros Hc Ha Ht Hb. unfold wf_key, datumToKey, datum_of. cbn [chainId address tokenId blockNumber or_empty].
  rewrite split_key by assumption. now rewrite (split_free "/" b Hb).
Qed.

Lemma insert_keeps_well_formed (c a t b : string) (data : Track) (db : DB) :
  sf c -> sf a -> sf t -> sf b ->
  well_formed (level db) ->
  well_formed (level (after (insert (datum_of c a t b) data) db)).
Proof.
  intros Hc Ha Ht Hb Hw.
  assert (Hl : level (after (insert (datum_of c a t b) data) db) =
               level_put (level db) (datumToKey (datum_of c a t b)) data).
  { unfold after, insert, bind, track_put, lift, change_put. simpl.
    destruct (datumToChangeKey (datum_of c a t b)); reflexivity. }
  rewrite Hl. unfold well_formed. apply forallb_put; [exact Hw|].
  cbn [fst]. now apply wf_key_datumToKey.
Qed.

Lemma insert_keeps_markers (c a t b : string) (data : Track) (db : DB) :
  sf c -> sf a -> sf t -> canonical b = true -> String.length b <= MAX_LENGTH ->
  markers_ok (changeIndex db) ->
  markers_ok (changeIndex (after (insert (datum_of c a t b) data) db)).
Proof.
  intros Hc Ha Ht Hb Hl Hm.
  destruct (marker_names_version c a t b Hc Ha Ht Hb Hl) as (ck & Hck & Hwf & _).
  unfold after, insert, bind, track_put, lift, change_put. simpl.
  unfold datum_of. rewrite Hck. simpl.
  unfold markers_ok. now apply forallb_put.
Qed.

Lemma NoDup_map_same {A B : Type} (f : A -> B) (l : list A) (x y : A) :
  NoDup (map f l) -> In x l -> In y l -> f x = f y -> x = y.
Proof.
  induction l as [|a l IH]; simpl; intros Hnd Hx Hy E; [destruct Hx|].
  inversion Hnd as [|? ? Hn Hd]; subst.
  destruct Hx as [<- | Hx], Hy as [<- | Hy]; auto.
  - exfalso. apply Hn. rewrite E. now apply in_map.
  - exfalso. apply Hn. rewrite <- E. now apply in_map.
Qed.

(** * Latest version at or before a cutoff *)

(** C1: [getOne] picks the version whose key is byte-wise greatest within
    the bound, which is the greatest block number only among numbers of one
    length.  With versions at blocks 100 and 101 the cutoffs 101 and 100
    give those versions, and the cutoff 99 gives the version of block 101
    rather than no version; with versions at blocks 9 and 10 and no cutoff
    it gives the version of block 9. *)
Theorem getOne_compares_blocks_bytewise :
  getOne (level history_db) (datum_of "1" "0x01" "1" "101") =
    Ok (mkReturnValue (datum_of "1" "0x01" "1" "101") "updated-data") /\
  getOne (level history_db) (datum_of "1" "0x01" "1" "100") =
    Ok (mkReturnValue (datum_of "1" "0x01" "1" "100") "data") /\
  getOne (level history_db) (datum_of "1" "0x01" "1" "99") =
    Ok (mkReturnValue (datum_of "1" "0x01" "1" "101") "updated-data") /\
  getOne (level rollover_db) (mkDatum (Some "1") (Some "0x01") (Some "1") None) =
    Ok (mkReturnValue (datum_of "1" "0x01" "1" "9") "nine").
Proof. repeat split; vm_compute; reflexivity. Qed.

(** With the cutoff 110 the scan of the scenario meets three groups, and
    [getMany] yields two entries: the group of token 3 has none. *)
Lemma getMany_cutoff_leaves_a_group_out :
  map (fun kv => identity (keyToDatum (fst kv)))
      (iterator (level scenario_db)
                (getMany_filter (by_contract "1" "0xb8" (Some "110")))) =
    [ (Some "1", Some "0xb8", Some "1"); (Some "1", Some "0xb8", Some "2");
      (Some "1", Some "0xb8", Some "2"); (Some "1", Some "0xb8", Some "3") ] /\
  getMany (level scenario_db) (by_contract "1" "0xb8" (Some "110")) =
    Ok [ mkReturnValue (datum_of "1" "0xb8" "1" "110") "A";
         mkReturnValue (datum_of "1" "0xb8" "2" "110") "B" ].
Proof. split; vm_compute; reflexivity. Qed.

(** Where the two orders agree: over an ascending store of four-segment
    keys, for a query whose
    range is not empty and on which byte-wise comparison of the block
    numbers involved (those in range and the cutoff, which is
    9007199254740991 when none is given) agrees with their numeric order,
    [getMany] yields stored versions of the range within the cutoff, at
    most one per (chainId, address, tokenId) group, in ascending key order;
    a group is represented exactly when it has a version within the cutoff,
    and its entry is the highest such version.  Groups with no version
    within the cutoff are left out.  In the scenario the query without
    cutoff yields A, B2, C and the query with cutoff 110 yields A, B. *)
Theorem getMany_latest_per_group :
  (forall (lvl : Level Track) (datum : Datum),
     ordered lvl -> well_formed lvl ->
     iterator lvl (getMany_filter datum) <> [] ->
     numeric_order (tillBlockNumber datum ::
                    blocks (iterator lvl (getMany_filter datum))) = true ->
     exists out,
       getMany lvl datum = Ok out /\
       (forall r, In r out ->
          (exists k, In (k, value r) lvl /\
                     in_range (getMany_filter datum) k = true /\
                     id r = keyToDatum k) /\
          (block_value (block (id r)) <=
           block_value (tillBlockNumber datum))%N) /\
       (forall k v, In (k, v) lvl ->
          in_range (getMany_filter datum) k = true ->
          (block_value (block (keyToDatum k)) <=
           block_value (tillBlockNumber datum))%N ->
          exists r, In r out /\ identity (id r) = identity (keyToDatum k)) /\
       (forall r k v, In r out -> In (k, v) lvl ->
          in_range (getMany_filter datum) k = true ->
          identity (keyToDatum k) = identity (id r) ->
          (block_value (block (keyToDatum k)) <=
           block_value (tillBlockNumber datum))%N ->
          (block_value (block (keyToDatum k)) <=
           block_value (block (id r)))%N) /\
       NoDup (map (fun r => identity (id r)) out) /\
       ascending (map (fun r => datumToKey (id r)) out) = true) /\
  getMany (level scenario_db) (by_contract "1" "0xb8" None) =
    Ok [ mkReturnValue (datum_of "1" "0xb8" "1" "110") "A";
         mkReturnValue (datum_of "1" "0xb8" "2" "120") "B2";
         mkReturnValue (datum_of "1" "0xb8" "3" "130") "C" ] /\
  getMany (level scenario_db) (by_contract "1" "0xb8" (Some "110")) =
    Ok [ mkReturnValue (datum_of "1" "0xb8" "1" "110") "A";
         mkReturnValue (datum_of "1" "0xb8" "2" "110") "B" ].
Proof.
  split; [|split; vm_compute; reflexivity].
  intros lvl datum Hord Hwf Hne Hnum.
  destruct (getMany_general lvl datum Hord Hwf Hne Hnum)
    as (out & Hout & H1 & H2 & H3 & H4).
  exists out. split; [exact Hout|]. split; [exact H1|].
  split; [|split; [|split; assumption]].
  - intros k v Hin Hr Hle.
    destruct (H2 k v Hin Hr Hle) as (r & Hr1 & Hr2 & _). now exists r.
  - intros r k v Hr Hin Hrange Hid Hle.
    destruct (H2 k v Hin Hrange Hle) as (r' & Hr1 & Hr2 & Hr3).
    assert (E : r' = r).
    { apply (NoDup_map_same (fun r => identity (id r)) out); auto.
      congruence. }
    now subst r'.
Qed.

Lemma getMany_latest_per_group_witness :
  exists out,
    getMany (level scenario_db) (by_contract "1" "0xb8" (Some "110")) = Ok out /\
    NoDup (map (fun r => identity (id r)) out) /\
    ascending (map (fun r => datumToKey (id r)) out) = true.
Proof.
  destruct (proj1 getMany_latest_per_group (level scenario_db)
              (by_contract "1" "0xb8" (Some "110")))
    as (out & Hout & _ & _ & _ & Hnd & Hasc).
  - vm_compute. reflexivity.
  - vm_compute. reflexivity.
  - vm_compute. discriminate.
  - vm_compute. reflexivity.
  - exists out. split; [exact Hout | split; assumption].
Defined.

(** C2: [getMany] compares block numbers as strings, against the raw
    cutoff and against the text 9007199254740991 when no cutoff is given.
    On the scenario, where all block numbers have three digits, it yields
    A, B2, C without cutoff and A, B with cutoff 110.  But a token whose
    only version is at block 95 is left out when no cutoff is given; with
    cutoff 110 the token whose version is at block 90 is left out while the
    one at block 110 is kept; and with versions at blocks 9 and 10 and no
    cutoff the entry yielded is the version of block 9. *)
Theorem getMany_compares_blocks_bytewise :
  getMany (level scenario_db) (by_contract "1" "0xb8" None) =
    Ok [ mkReturnValue (datum_of "1" "0xb8" "1" "110") "A";
         mkReturnValue (datum_of "1" "0xb8" "2" "120") "B2";
         mkReturnValue (datum_of "1" "0xb8" "3" "130") "C" ] /\
  getMany (level scenario_db) (by_contract "1" "0xb8" (Some "110")) =
    Ok [ mkReturnValue (datum_of "1" "0xb8" "1" "110") "A";
         mkReturnValue (datum_of "1" "0xb8" "2" "110") "B" ] /\
  level late_db = [ ("1/0x01/1/95", "late") ] /\
  getMany (level late_db) (by_contract "1" "0x01" None) = Ok [] /\
  level mixed_db = [ ("1/0xb8/1/90", "P"); ("1/0xb8/2/110", "Q") ] /\
  getMany (level mixed_db) (by_contract "1" "0xb8" (Some "110")) =
    Ok [ mkReturnValue (datum_of "1" "0xb8" "2" "110") "Q" ] /\
  level rollover_db = [ ("1/0x01/1/10", "ten"); ("1/0x01/1/9", "nine") ] /\
  getMany (level rollover_db) (by_contract "1" "0x01" None) =
    Ok [ mkReturnValue (datum_of "1" "0x01" "1" "9") "nine" ].
Proof. repeat split; vm_compute; reflexivity. Qed.

(** * Concrete runs *)

(** Two markers of one identity lie in the window 100..120; the key
    returned is the one of block 101, the later of the two. *)
Lemma getIdsChanged_returns_the_later_marker :
  keys (iterator (changeIndex history_db)
                 (range "0000000100/" "0000000120/~")) =
    [ "0000000100/1/0x01/1"; "0000000101/1/0x01/1" ] /\
  map marker_id [ "0000000100/1/0x01/1"; "0000000101/1/0x01/1" ] =
    [ "1/0x01/1/100"; "1/0x01/1/101" ] /\
  getIdsChanged (changeIndex history_db) "100" (Some "120") =
    Ok [ "1/0x01/1/101" ].
Proof. repeat split; vm_compute; reflexivity. Qed.

Lemma getIdsChanged_keeps_latest_witness :
  exists ids : JsMap,
    getIdsChanged (changeIndex history_db) "100" (Some "120") =
      Ok (map snd ids) /\
    NoDup (map fst ids).
Proof.
  destruct (getIdsChanged_keeps_latest (changeIndex history_db) "100" (Some "120"))
    as (lo & hi & ids & _ & _ & Hout & Hnd & _).
  - vm_compute. reflexivity.
  - vm_compute. reflexivity.
  - unfold MAX_LENGTH. simpl. lia.
  - unfold MAX_LENGTH. simpl. lia.
  - exists ids. split; assumption.
Defined.

(** With the bounds the wrong way round, 120 down to 100, the call returns
    the empty list over a change index that is not empty. *)
Lemma getIdsChanged_accepts_reversed_bounds :
  keys (changeIndex scenario_db) =
    [ "0000000110/1/0xb8/1"; "0000000110/1/0xb8/2";
      "0000000120/1/0xb8/2"; "0000000130/1/0xb8/3" ] /\
  (block_value "100" <? block_value "120")%N = true /\
  getIdsChanged (changeIndex scenario_db) "120" (Some "100") = Ok [].
Proof. repeat split; vm_compute; reflexivity. Qed.

Lemma getIdsChanged_reversed_range_witness :
  getIdsChanged (changeIndex scenario_db) "120" (Some "100") = Ok [].
Proof.
  apply getIdsChanged_reversed_range.
  - reflexivity.
  - reflexivity.
  - unfold MAX_LENGTH. simpl. lia.
  - unfold MAX_LENGTH. simpl. lia.
  - vm_compute. reflexivity.
Defined.

Lemma insert_writes_both_indexes_witness :
  journal (after (insert (datum_of "1" "0x13" "5" "95") "data") empty_db) =
    [ PutTrack "1/0x13/5/95" "data"; PutChange "0000000095/1/0x13/5" "" ] /\
  changeIndex (after (insert (datum_of "1" "0x13" "5" "95") "data") empty_db) =
    [ ("0000000095/1/0x13/5", "") ] /\
  marker_id "0000000095/1/0x13/5" = "1/0x13/5/95".
Proof.
  destruct (insert_writes_both_indexes (datum_of "1" "0x13" "5" "95") "data"
              empty_db
              (after (insert (datum_of "1" "0x13" "5" "95") "data") empty_db))
    as (b & p & ck & Hb & _ & _ & Hp & _ & _ & Hck & _ & Hj & _ & Hc & _).
  - vm_compute. reflexivity.
  - injection Hb as <-. rewrite Hp in Hck. vm_compute in Hck. subst ck.
    split; [exact Hj|]. split; [exact Hc|]. vm_compute. reflexivity.
Defined.

(** Deleting a version whose primary entry is absent does not fail, and the
    marker is removed all the same. *)
Lemma del_of_absent_entry_succeeds :
  level_get (level cleared_db) (datumToKey (datum_of "1" "0x13" "5" "95")) = None /\
  del (datum_of "1" "0x13" "5" "95") cleared_db =
    (Ok tt,
     {| level := [];
        changeIndex := [];
        journal := [ DelTrack "1/0x13/5/95"; DelChange "0000000095/1/0x13/5" ] |}).
Proof. split; vm_compute; reflexivity. Qed.

Lemma del_never_reports_absence_witness :
  exists db',
    del (datum_of "1" "0x13" "5" "95") cleared_db = (Ok tt, db') /\
    level db' = level cleared_db.
Proof.
  destruct (del_never_reports_absence (datum_of "1" "0x13" "5" "95")
              cleared_db "95")
    as (ck & db' & _ & Hdel & _ & _ & _ & _ & _ & Hsame & _).
  - reflexivity.
  - unfold MAX_LENGTH. simpl. lia.
  - exists db'. split; [exact Hdel|]. apply Hsame. reflexivity.
Defined.

(** A key of three segments and a key of five both decode to a record. *)
Lemma keyToDatum_accepts_other_segment_counts :
  List.length (split "/" "1/0xb8/7") = 3 /\
  keyToDatum "1/0xb8/7" = mkDatum (Some "1") (Some "0xb8") (Some "7") None /\
  List.length (split "/" "1/0xb8/7/110/extra") = 5 /\
  keyToDatum "1/0xb8/7/110/extra" = datum_of "1" "0xb8" "7" "110".
Proof. repeat split; vm_compute; reflexivity. Qed.

Lemma keyToDatum_any_segment_count_witness :
  blockNumber (keyToDatum "1/0xb8/7") = None /\
  exists c a t b, keyToDatum "1/0xb8/7/110/extra" = mkDatum (Some c) (Some a) (Some t) (Some b).
Proof.
  split.
  - apply (keyToDatum_any_segment_count "1/0xb8/7"). simpl. lia.
  - destruct (keyToDatum_any_segment_count "1/0xb8/7/110/extra")
      as (_ & _ & _ & H).
    destruct H as (c & a & t & b & E & _); [simpl; lia|].
    now exists c, a, t, b.
Defined.

Lemma createChangeIndex_idempotent_witness :
  changeIndex (after createChangeIndex (after createChangeIndex scenario_db)) =
  changeIndex (after createChangeIndex scenario_db).
Proof.
  apply (createChangeIndex_idempotent scenario_db).
  vm_compute. reflexivity.
Defined.

Lemma getMany_empty_range_throws_witness :
  getMany (level scenario_db) (by_contract "2" "0xb8" None) =
    Throw (Error "Couldn't find any items for the given DB query") /\
  getMany (level scenario_db) (by_contract "1" "0xb8" (Some "100")) = Ok [].
Proof.
  split.
  - apply (getMany_empty_range_throws (level scenario_db)
             (by_contract "2" "0xb8" None)).
    intros k v H. vm_compute in H.
    repeat (destruct H as [H | H]; [injection H as <- <-; reflexivity|]).
    destruct H.
  - destruct (proj2 (getMany_empty_range_throws (level scenario_db)
                       (by_contract "1" "0xb8" (Some "100")))
                "1/0xb8/1/110" "A") as (out & Hout).
    + vm_compute. now left.
    + reflexivity.
    + rewrite Hout. vm_compute in Hout. injection Hout as <-. reflexivity.
Defined.

(** * Further properties of the database *)

Lemma level_put_put {V : Type} (db : Level V) (k : string) (v v' : V) :
  level_put (level_put db k v) k v' = level_put db k v'.
Proof.
  induction db as [|[k0 w] db IH]; simpl.
  - now rewrite compare_refl.
  - destruct (String.compare k k0) eqn:E; simpl.
    + now rewrite compare_refl.
    + now rewrite compare_refl.
    + now rewrite E, IH.
Qed.

Lemma level_del_put {V : Type} (db : Level V) (k : string) (v : V) :
  level_del (level_put db k v) k = level_del db k.
Proof.
  unfold level_del. induction db as [|[k0 w] db IH]; simpl.
  - now rewrite String.eqb_refl.
  - destruct (String.compare k k0) eqn:E; simpl.
    + apply String.compare_eq_iff in E. subst k0.
      now rewrite String.eqb_refl.
    + now rewrite String.eqb_refl.
    + now rewrite IH.
Qed.

Lemma sorted_In_get {V : Type} (db : Level V) (k : string) (v : V) :
  StronglySorted key_lt (keys db) -> In (k, v) db -> level_get db k = Some v.
Proof.
  unfold keys, level_get.
  induction db as [|[k0 w] db IH]; simpl; intros Hs Hin; [destruct Hin|].
  inversion Hs as [|? ? Hs' Hf]; subst.
  destruct Hin as [H | Hin].
  - injection H as -> ->. now rewrite String.eqb_refl.
  - destruct (String.eqb k0 k) eqn:E; [|now apply IH].
    apply String.eqb_eq in E. subst k0. exfalso.
    rewrite Forall_forall in Hf.
    assert (Hlt : key_lt k k) by (apply Hf; apply in_map_iff; now exists (k, v)).
    unfold key_lt in Hlt. rewrite str_lt_irrefl in Hlt. discriminate.
Qed.

Lemma level_get_In {V : Type} (db : Level V) (k : string) (v : V) :
  level_get db k = Some v -> In (k, v) db.
Proof.
  unfold level_get. destruct (find _ db) as [[k' v']|] eqn:E; [|discriminate].
  simpl. intros H. injection H as ->. apply find_some in E.
  destruct E as [Hin Hk]. apply String.eqb_eq in Hk. simpl in Hk. now subst.
Qed.

Lemma insert_level (datum : Datum) (data : Track) (db : DB) :
  level (after (insert datum data) db) =
  level_put (level db) (datumToKey datum) data.
Proof.
  unfold after, insert, bind, track_put, lift, change_put. simpl.
  destruct (datumToChangeKey datum); reflexivity.
Qed.

Lemma insert_changeIndex (datum : Datum) (data : Track) (db : DB) :
  changeIndex (after (insert datum data) db) =
  match datumToChangeKey datum with
  | Ok ck => level_put (changeIndex db) ck ""
  | Throw _ => changeIndex db
  end.
Proof.
  unfold after, insert, bind, track_put, lift, change_put. simpl.
  destruct (datumToChangeKey datum); reflexivity.
Qed.

Lemma del_level (datum : Datum) (db : DB) :
  level (after (del datum) db) = level_del (level db) (datumToKey datum).
Proof.
  unfold after, del, bind, track_del, lift, change_del. simpl.
  destruct (datumToChangeKey datum); reflexivity.
Qed.

Lemma del_changeIndex (datum : Datum) (db : DB) :
  changeIndex (after (del datum) db) =
  match datumToChangeKey datum with
  | Ok ck => level_del (changeIndex db) ck
  | Throw _ => changeIndex db
  end.
Proof.
  unfold after, del, bind, track_del, lift, change_del. simpl.
  destruct (datumToChangeKey datum); reflexivity.
Qed.

(** X1: writing the same (identity, block) again only replaces the
    payload: both stores end as if the later insert alone had happened, so
    there is one primary entry and one marker for the pair. *)
Theorem insert_again_overwrites (datum : Datum) (data data' : Track) (db : DB) :
  level (after (insert datum data') (after (insert datum data) db)) =
    level (after (insert datum data') db) /\
  changeIndex (after (insert datum data') (after (insert datum data) db)) =
    changeIndex (after (insert datum data') db).
Proof.
  rewrite !insert_level, !insert_changeIndex. split.
  - apply level_put_put.
  - destruct (datumToChangeKey datum); [apply level_put_put | reflexivity].
Qed.

(** X2: deleting a version right after inserting it leaves both stores as
    a delete alone would; where the version and its marker were not there
    before, both stores are back to what they were. *)
Theorem del_undoes_insert (datum : Datum) (data : Track) (db : DB) :
  level (after (del datum) (after (insert datum data) db)) =
    level (after (del datum) db) /\
  changeIndex (after (del datum) (after (insert datum data) db)) =
    changeIndex (after (del datum) db) /\
  (level_get (level db) (datumToKey datum) = None ->
   level (after (del datum) (after (insert datum data) db)) = level db) /\
  (forall ck, datumToChangeKey datum = Ok ck ->
   level_get (changeIndex db) ck = None ->
   changeIndex (after (del datum) (after (insert datum data) db)) =
   changeIndex db).
Proof.
  rewrite !del_level, !del_changeIndex, !insert_level, !insert_changeIndex.
  repeat split.
  - apply level_del_put.
  - destruct (datumToChangeKey datum); [apply level_del_put | reflexivity].
  - intros H. rewrite level_del_put. now apply level_get_absent.
  - intros ck E H. rewrite E, level_del_put. now apply level_get_absent.
Qed.

Lemma del_undoes_insert_witness :
  level (after (del (datum_of "1" "0x13" "5" "95"))
          (after (insert (datum_of "1" "0x13" "5" "95") "data") scenario_db)) =
    level scenario_db /\
  changeIndex (after (del (datum_of "1" "0x13" "5" "95"))
          (after (insert (datum_of "1" "0x13" "5" "95") "data") scenario_db)) =
    changeIndex scenario_db.
Proof.
  destruct (del_undoes_insert (datum_of "1" "0x13" "5" "95") "data" scenario_db)
    as (_ & _ & Hl & Hc).
  split.
  - apply Hl. reflexivity.
  - apply (Hc "0000000095/1/0x13/5"); reflexivity.
Defined.

(** X3: the two writes of [insert] and of [del] are not atomic.  With a
    block number of more than ten characters the primary write has already
    happened when the encoding error is thrown: [insert] leaves the new
    primary entry without a marker, [del] removes the primary entry and
    leaves the change index as it was. *)
Theorem long_block_number_stops_after_primary_write
    (datum : Datum) (data : Track) (db : DB) (b : string) :
  blockNumber datum = Some b -> MAX_LENGTH < String.length b ->
  insert datum data db =
    (Throw (Error "Database cannot encode number greater than 10 digits"),
     {| level := level_put (level db) (datumToKey datum) data;
        changeIndex := changeIndex db;
        journal := (journal db ++ [PutTrack (datumToKey datum) data])%list |}) /\
  del datum db =
    (Throw (Error "Database cannot encode number greater than 10 digits"),
     {| level := level_del (level db) (datumToKey datum);
        changeIndex := changeIndex db;
        journal := (journal db ++ [DelTrack (datumToKey datum)])%list |}).
Proof.
  intros Hb Hl.
  assert (E : datumToChangeKey datum =
              Throw (Error "Database cannot encode number greater than 10 digits")).
  { unfold datumToChangeKey, encodeNumber. rewrite Hb.
    destruct (Nat.ltb_spec MAX_LENGTH (String.length b)); [reflexivity | lia]. }
  unfold insert, del, bind, track_put, track_del, lift. simpl.
  now rewrite E.
Qed.

Lemma long_block_number_stops_after_primary_write_witness :
  level_get (level (after (insert (datum_of "1" "0x13" "5" "12345678901") "data")
                          empty_db))
            "1/0x13/5/12345678901" = Some "data" /\
  changeIndex (after (insert (datum_of "1" "0x13" "5" "12345678901") "data")
                     empty_db) = [].
Proof.
  destruct (long_block_number_stops_after_primary_write
              (datum_of "1" "0x13" "5" "12345678901") "data" empty_db
              "12345678901") as [Hi _].
  - reflexivity.
  - unfold MAX_LENGTH. simpl. lia.
  - unfold after. rewrite Hi. split; reflexivity.
Defined.

(** * The codec *)

Lemma keyToDatum_datumToKey (c a t b : string) :
  sf c -> sf a -> sf t -> sf b ->
  keyToDatum (datumToKey (datum_of c a t b)) = datum_of c a t b.
Proof.
  intros Hc Ha Ht Hb.
  unfold datumToKey, datum_of.
  cbn [chainId address tokenId blockNumber or_empty].
  unfold keyToDatum. rewrite split_key by assumption.
  now rewrite (split_free "/" b Hb).
Qed.

(** X4: keys and data convert back and forth without loss: a datum whose
    four fields hold no slash is read back from its key, and a key of
    exactly four segments is rebuilt from its datum. *)
Theorem key_round_trip :
  (forall c a t b, sf c -> sf a -> sf t -> sf b ->
     keyToDatum (datumToKey (datum_of c a t b)) = datum_of c a t b) /\
  (forall k, wf_key k = true -> datumToKey (keyToDatum k) = k).
Proof.
  split.
  - apply keyToDatum_datumToKey.
  - apply datumToKey_keyToDatum.
Qed.

Lemma key_round_trip_witness :
  keyToDatum (datumToKey (datum_of "1" "0xb8" "2" "120")) =
    datum_of "1" "0xb8" "2" "120" /\
  datumToKey (keyToDatum "1/0xb8/2/120") = "1/0xb8/2/120".
Proof.
  split.
  - apply (proj1 key_round_trip); reflexivity.
  - apply (proj2 key_round_trip). reflexivity.
Defined.

(** X5: padding does what the comment on [encodeNumber] promises: for
    decimal numbers of at most ten digits the encoded strings compare
    byte-wise exactly as the numbers compare, and two numbers get the same
    encoding only when they are equal. *)
Theorem encodeNumber_keeps_numeric_order (x y : string) :
  all_digits x = true -> all_digits y = true ->
  String.length x <= MAX_LENGTH -> String.length y <= MAX_LENGTH ->
  exists px py,
    encodeNumber x = Ok px /\ encodeNumber y = Ok py /\
    str_le px py = N.leb (block_value x) (block_value y) /\
    str_lt px py = N.ltb (block_value x) (block_value y) /\
    (px = py <-> block_value x = block_value y).
Proof.
  intros Dx Dy Lx Ly.
  exists (padStart x MAX_LENGTH "0"), (padStart y MAX_LENGTH "0").
  split; [now apply encodeNumber_ok|]. split; [now apply encodeNumber_ok|].
  assert (Hc : String.compare (padStart x MAX_LENGTH "0") (padStart y MAX_LENGTH "0") =
               N.compare (block_value x) (block_value y)).
  { unfold padStart. rewrite digits_compare.
    - now rewrite !zeros_value.
    - now apply zeros_digits.
    - now apply zeros_digits.
    - rewrite !append_length, !repeat_char_length. lia. }
  unfold str_le, str_lt, String.leb, String.ltb, N.leb, N.ltb. rewrite Hc.
  split; [reflexivity|]. split; [reflexivity|]. split.
  - intros E. rewrite E, compare_refl in Hc. symmetry in Hc.
    now apply N.compare_eq_iff in Hc.
  - intros E. apply String.compare_eq_iff. rewrite Hc.
    now apply N.compare_eq_iff.
Qed.

Lemma encodeNumber_keeps_numeric_order_witness :
  exists px py,
    encodeNumber "9" = Ok px /\ encodeNumber "10" = Ok py /\
    str_lt px py = true.
Proof.
  destruct (encodeNumber_keeps_numeric_order "9" "10")
    as (px & py & Hx & Hy & _ & Hlt & _).
  - reflexivity.
  - reflexivity.
  - unfold MAX_LENGTH. simpl. lia.
  - unfold MAX_LENGTH. simpl. lia.
  - exists px, py. split; [exact Hx|]. split; [exact Hy|].
    rewrite Hlt. reflexivity.
Defined.

(** X6: the marker that [insert] writes names the version it wrote: for a
    well-formed datum the marker key is accepted as a ten-digit marker, and
    the id that [getIdsChanged] builds from it is the primary key of the
    datum. *)
Theorem insert_marker_names_primary_key (datum : Datum) :
  valid_datum datum ->
  exists ck,
    datumToChangeKey datum = Ok ck /\
    wf_marker ck = true /\
    marker_id ck = datumToKey datum /\
    keyToDatum (marker_id ck) = datum.
Proof.
  intros (c & a & t & b & -> & Hc & Ha & Ht & Hb & Hl).
  destruct (marker_names_version c a t b Hc Ha Ht Hb Hl) as (ck & H1 & H2 & H3).
  exists ck. repeat split; auto.
  rewrite H3. apply keyToDatum_datumToKey; auto.
  apply digits_no_sep. now apply canonical_digits.
Qed.

Lemma valid_datum_of (c a t b : string) :
  has_sep "/" c = false -> has_sep "/" a = false -> has_sep "/" t = false ->
  canonical b = true -> String.length b <= MAX_LENGTH ->
  valid_datum (datum_of c a t b).
Proof. intros. exists c, a, t, b. repeat split; assumption. Qed.

Lemma insert_marker_names_primary_key_witness :
  exists ck,
    datumToChangeKey (datum_of "1" "0xb8" "2" "120") = Ok ck /\
    marker_id ck = "1/0xb8/2/120".
Proof.
  destruct (insert_marker_names_primary_key (datum_of "1" "0xb8" "2" "120"))
    as (ck & H1 & _ & H3 & _).
  - apply valid_datum_of; try reflexivity. unfold MAX_LENGTH. simpl. lia.
  - exists ck. split; [exact H1 | exact H3].
Defined.

(** * Invariants of the two stores *)

Lemma forallb_del {V : Type} (f : string * V -> bool) (db : Level V) (k : string) :
  forallb f db = true -> forallb f (level_del db k) = true.
Proof.
  intros H. apply forallb_forall. intros kv Hin.
  unfold level_del in Hin. apply filter_In in Hin.
  rewrite forallb_forall in H. now apply H.
Qed.

(** X7: the shape of the stores is kept by the writes: on a database
    whose stores are ascending, whose primary keys have four segments and
    whose markers start with ten digits, inserting or deleting a well-formed
    datum gives such a database again; the empty database is one. *)
Theorem writes_keep_consistency :
  consistent empty_db /\
  (forall datum data db, consistent db -> valid_datum datum ->
     consistent (after (insert datum data) db)) /\
  (forall datum db, consistent db -> consistent (after (del datum) db)).
Proof.
  split; [|split].
  - repeat split.
  - intros datum data db (Ho1 & Ho2 & Hw & Hm) Hv.
    pose proof Hv as (c & a & t & b & -> & Hc & Ha & Ht & Hb & Hl).
    destruct (insert_keeps_order (datum_of c a t b) data db Ho1 Ho2) as [H1 H2].
    repeat split; auto.
    + apply insert_keeps_well_formed; auto.
      apply digits_no_sep. now apply canonical_digits.
    + now apply insert_keeps_markers.
  - intros datum db (Ho1 & Ho2 & Hw & Hm).
    unfold consistent. rewrite del_level, del_changeIndex.
    destruct (datumToChangeKey datum);
      repeat split; auto using level_del_ordered;
      try (apply forallb_del; assumption).
Qed.

Lemma writes_keep_consistency_witness :
  consistent (after (insert (datum_of "1" "0xb8" "2" "120") "B2") empty_db).
Proof.
  apply (proj1 (proj2 writes_keep_consistency)).
  - exact (proj1 writes_keep_consistency).
  - apply valid_datum_of; try reflexivity. unfold MAX_LENGTH. simpl. lia.
Defined.

(** * Looking up one version *)

Lemma getOne_scan (lvl : Level Track) (c a t : string) (cutoff : option string) :
  c <> "" -> a <> "" -> t <> "" ->
  getOne lvl (mkDatum (Some c) (Some a) (Some t) cutoff) =
  first_hit lvl
    {| gte := Some (c ++ "/" ++ a ++ "/" ++ t ++ "/");
       lte := Some ((c ++ "/" ++ a ++ "/" ++ t ++ "/") ++
                    (if truthy cutoff then or_empty cutoff else "~"));
       reverse := true; limit := Some 1 |}.
Proof.
  intros Hc Ha Ht. unfold getOne.
  cbn [chainId address tokenId blockNumber tpl].
  rewrite !truthy_Some by assumption. cbn [andb].
  destruct cutoff as [b|]; [|reflexivity].
  destruct (truthy (Some b)); reflexivity.
Qed.

Lemma first_hit_in_range (lvl : Level Track) (lo hi : string) :
  match first_hit lvl {| gte := Some lo; lte := Some hi;
                         reverse := true; limit := Some 1 |} with
  | Ok r =>
      exists k, In (k, value r) lvl /\ id r = keyToDatum k /\
        str_le lo k = true /\ str_le k hi = true
  | Throw e => e = LEVEL_NOT_FOUND "Level not found"
  end.
Proof.
  unfold first_hit, iterator. cbn [reverse limit].
  set (hits := filter _ lvl).
  destruct (List.rev hits) as [|[k v] r] eqn:Er; simpl; [reflexivity|].
  assert (Hin : In (k, v) hits).
  { apply in_rev. rewrite Er. now left. }
  unfold hits in Hin. apply filter_In in Hin. destruct Hin as [Hin Hr].
  unfold in_range in Hr. simpl in Hr. apply andb_true_iff in Hr.
  exists k. tauto.
Qed.

(** X8: [getOne] never answers with another token's version.  For an
    identity of three non-empty fields without slashes, over a store of
    four-segment keys, the answer is a stored version of exactly that
    identity, and with a cutoff its block number is byte-wise at most the
    cutoff; the only error is the not-found one.  When one of the three
    fields is missing or empty the call throws the insufficient-parameters
    error whatever the store holds. *)
Theorem getOne_answers_for_the_identity_asked :
  (forall (lvl : Level Track) (c a t : string) (cutoff : option string),
     well_formed lvl ->
     sf c /\ c <> "" -> sf a /\ a <> "" -> sf t /\ t <> "" ->
     match getOne lvl (mkDatum (Some c) (Some a) (Some t) cutoff) with
     | Ok r =>
         (exists k, In (k, value r) lvl /\ id r = keyToDatum k) /\
         identity (id r) = (Some c, Some a, Some t) /\
         (truthy cutoff = true ->
          str_le (block (id r)) (or_empty cutoff) = true)
     | Throw e => e = LEVEL_NOT_FOUND "Level not found"
     end) /\
  (forall (lvl : Level Track) (datum : Datum),
     truthy (chainId datum) && truthy (address datum) &&
     truthy (tokenId datum) = false ->
     getOne lvl datum =
     Throw (Error "Insufficient parametrs provided to DB.getOne function")).
Proof.
  split.
  - intros lvl c a t cutoff Hw Hc Ha Ht.
    rewrite getOne_scan by (apply Hc || apply Ha || apply Ht).
    set (hi := if truthy cutoff then or_empty cutoff else "~").
    pose proof (first_hit_in_range lvl (c ++ "/" ++ a ++ "/" ++ t ++ "/")
                  ((c ++ "/" ++ a ++ "/" ++ t ++ "/") ++ hi)) as Hspec.
    destruct (first_hit lvl _) as [r|e]; [|exact Hspec].
    destruct Hspec as (k & Hin & Hid & Hlo & Hhi).
    destruct (in_range_key lvl c a t Hw Hc Ha Ht k (value r) hi Hin Hlo Hhi)
      as [Hd Hk].
    rewrite Hid. split; [now exists k|]. split; [now rewrite Hd|].
    intros Htr. unfold hi in Hhi. rewrite Htr in Hhi.
    apply str_le_iff. apply str_le_iff in Hhi.
    rewrite Hk, compare_app in Hhi. exact Hhi.
  - intros lvl datum H. unfold getOne.
    destruct (truthy (chainId datum) && truthy (address datum) &&
              truthy (tokenId datum)); [discriminate|].
    reflexivity.
Qed.

Lemma getOne_answers_for_the_identity_asked_witness :
  exists r,
    getOne (level scenario_db)
      (mkDatum (Some "1") (Some "0xb8") (Some "2") (Some "115")) = Ok r /\
    identity (id r) = (Some "1", Some "0xb8", Some "2").
Proof.
  pose proof (proj1 getOne_answers_for_the_identity_asked (level scenario_db)
                "1" "0xb8" "2" (Some "115")) as H.
  destruct (getOne (level scenario_db)
              (mkDatum (Some "1") (Some "0xb8") (Some "2") (Some "115")))
    as [r|e] eqn:E.
  - exists r. split; [reflexivity|]. apply H.
    + reflexivity.
    + split; [reflexivity | discriminate].
    + split; [reflexivity | discriminate].
    + split; [reflexivity | discriminate].
  - vm_compute in E. discriminate.
Defined.

(** X9: a version can be read back under its own id right after it was
    inserted: [getOne] with the datum just inserted returns that datum and
    that payload, whatever else the ascending store holds. *)
Theorem getOne_reads_back_the_insert
    (c a t b : string) (data : Track) (db : DB) :
  ordered (level db) ->
  sf c /\ c <> "" -> sf a /\ a <> "" -> sf t /\ t <> "" -> sf b /\ b <> "" ->
  getOne (level (after (insert (datum_of c a t b) data) db)) (datum_of c a t b) =
  Ok (mkReturnValue (datum_of c a t b) data).
Proof.
  intros Ho Hc Ha Ht Hb. rewrite insert_level.
  set (K := datumToKey (datum_of c a t b)).
  set (lvl := level_put (level db) K data).
  assert (Hol : ordered lvl) by now apply level_put_ordered.
  assert (HK : K = (c ++ "/" ++ a ++ "/" ++ t ++ "/") ++ b).
  { unfold K, datumToKey, datum_of.
    cbn [chainId address tokenId blockNumber or_empty].
    repeat (rewrite append_assoc; simpl). reflexivity. }
  assert (Hget : level_get lvl K = Some data) by apply level_get_put_same.
  unfold datum_of at 1. rewrite getOne_scan by (apply Hc || apply Ha || apply Ht).
  rewrite truthy_Some by apply Hb. cbn [or_empty]. rewrite <- HK.
  pose proof (first_hit_spec lvl (c ++ "/" ++ a ++ "/" ++ t ++ "/") K Hol) as Hspec.
  assert (Hlo : str_le (c ++ "/" ++ a ++ "/" ++ t ++ "/") K = true).
  { rewrite HK. apply prefix_le. }
  destruct (first_hit lvl _) as [r|e].
  - destruct Hspec as (k & Hin & Hid & _ & Hhi & Hmax).
    assert (Ek : k = K).
    { apply String.leb_antisym; [exact Hhi|].
      apply (Hmax K data); [now apply level_get_In | exact Hlo | apply str_le_refl]. }
    subst k.
    assert (Hv : value r = data).
    { apply ascending_sorted in Hol.
      pose proof (sorted_In_get lvl K (value r) Hol Hin) as H.
      rewrite Hget in H. now injection H. }
    destruct r as [i v]. simpl in *. subst.
    f_equal. f_equal. unfold K.
    apply keyToDatum_datumToKey; [apply Hc | apply Ha | apply Ht | apply Hb].
  - destruct Hspec as [_ Hnone].
    specialize (Hnone K data (level_get_In _ _ _ Hget) Hlo).
    rewrite str_le_refl in Hnone. discriminate.
Qed.

Lemma getOne_reads_back_the_insert_witness :
  getOne (level (after (insert (datum_of "1" "0x9b" "2" "110") "data") scenario_db))
         (datum_of "1" "0x9b" "2" "110") =
  Ok (mkReturnValue (datum_of "1" "0x9b" "2" "110") "data").
Proof.
  apply getOne_reads_back_the_insert.
  - vm_compute. reflexivity.
  - split; [reflexivity | discriminate].
  - split; [reflexivity | discriminate].
  - split; [reflexivity | discriminate].
  - split; [reflexivity | discriminate].
Defined.

(** X10: where byte-wise and numeric order agree on the cutoff and the
    block numbers of the store (as they do among numbers of one length),
    [getOne] with a cutoff returns the version of the identity with the
    greatest block number not above the cutoff, and throws the not-found
    error exactly when the identity has no version at or below it. *)
Theorem getOne_latest_within_cutoff
    (lvl : Level Track) (c a t cutoff : string) :
  ordered lvl -> well_formed lvl ->
  sf c /\ c <> "" -> sf a /\ a <> "" -> sf t /\ t <> "" -> cutoff <> "" ->
  numeric_order (cutoff :: blocks lvl) = true ->
  match getOne lvl (datum_of c a t cutoff) with
  | Ok r =>
      (exists k, In (k, value r) lvl /\ id r = keyToDatum k) /\
      identity (id r) = (Some c, Some a, Some t) /\
      (block_value (block (id r)) <= block_value cutoff)%N /\
      (forall k v, In (k, v) lvl ->
         identity (keyToDatum k) = (Some c, Some a, Some t) ->
         (block_value (block (keyToDatum k)) <= block_value cutoff)%N ->
         (block_value (block (keyToDatum k)) <= block_value (block (id r)))%N)
  | Throw e =>
      e = LEVEL_NOT_FOUND "Level not found" /\
      (forall k v, In (k, v) lvl ->
         identity (keyToDatum k) = (Some c, Some a, Some t) ->
         (block_value cutoff < block_value (block (keyToDatum k)))%N)
  end.
Proof.
  intros Ho Hw Hc Ha Ht Hcut Hnum.
  exact (getOne_greatest_within_cutoff lvl c a t Ho Hw Hc Ha Ht cutoff Hcut Hnum).
Qed.

Lemma getOne_latest_within_cutoff_witness :
  exists r,
    getOne (level scenario_db) (datum_of "1" "0xb8" "2" "115") = Ok r /\
    (block_value (block (id r)) <= block_value "115")%N.
Proof.
  pose proof (getOne_latest_within_cutoff (level scenario_db)
                "1" "0xb8" "2" "115") as H.
  destruct (getOne (level scenario_db) (datum_of "1" "0xb8" "2" "115"))
    as [r|e] eqn:E.
  - exists r. split; [reflexivity|]. apply H.
    + vm_compute. reflexivity.
    + vm_compute. reflexivity.
    + split; [reflexivity | discriminate].
    + split; [reflexivity | discriminate].
    + split; [reflexivity | discriminate].
    + discriminate.
    + vm_compute. reflexivity.
  - vm_compute in E. discriminate.
Defined.

(** X11: without a cutoff, over decimal block numbers on which byte-wise
    and numeric order agree, [getOne] returns the version of the identity
    with the greatest block number, and throws the not-found error exactly
    when the identity has no version at all. *)
Theorem getOne_latest_overall (lvl : Level Track) (c a t : string) :
  ordered lvl -> well_formed lvl ->
  sf c /\ c <> "" -> sf a /\ a <> "" -> sf t /\ t <> "" ->
  (forall b, In b (blocks lvl) -> all_digits b = true) ->
  numeric_order (blocks lvl) = true ->
  match getOne lvl (mkDatum (Some c) (Some a) (Some t) None) with
  | Ok r =>
      (exists k, In (k, value r) lvl /\ id r = keyToDatum k) /\
      identity (id r) = (Some c, Some a, Some t) /\
      (forall k v, In (k, v) lvl ->
         identity (keyToDatum k) = (Some c, Some a, Some t) ->
         (block_value (block (keyToDatum k)) <= block_value (block (id r)))%N)
  | Throw e =>
      e = LEVEL_NOT_FOUND "Level not found" /\
      (forall k v, In (k, v) lvl ->
         identity (keyToDatum k) <> (Some c, Some a, Some t))
  end.
Proof.
  intros Ho Hw Hc Ha Ht Hd Hnum.
  exact (getOne_greatest_overall lvl c a t Ho Hw Hc Ha Ht Hd Hnum).
Qed.

Lemma getOne_latest_overall_witness :
  exists r,
    getOne (level scenario_db) (mkDatum (Some "1") (Some "0xb8") (Some "2") None) =
      Ok r /\
    identity (id r) = (Some "1", Some "0xb8", Some "2").
Proof.
  pose proof (getOne_latest_overall (level scenario_db) "1" "0xb8" "2") as H.
  destruct (getOne (level scenario_db)
              (mkDatum (Some "1") (Some "0xb8") (Some "2") None))
    as [r|e] eqn:E.
  - exists r. split; [reflexivity|]. apply H.
    + vm_compute. reflexivity.
    + vm_compute. reflexivity.
    + split; [reflexivity | discriminate].
    + split; [reflexivity | discriminate].
    + split; [reflexivity | discriminate].
    + intros b Hb. vm_compute in Hb.
      repeat (destruct Hb as [<- | Hb]; [reflexivity|]). destruct Hb.
    + vm_compute. reflexivity.
  - vm_compute in E. discriminate.
Defined.

(** * Scanning a contract or a chain *)

Lemma getMany_selection (lvl : Level Track) (datum : Datum) :
  ordered lvl -> well_formed lvl ->
  iterator lvl (getMany_filter datum) <> [] ->
  exists out,
    getMany lvl datum = Ok out /\
    (forall r, In r out ->
       (exists k, In (k, value r) lvl /\
                  in_range (getMany_filter datum) k = true /\
                  id r = keyToDatum k) /\
       str_le (block (id r)) (tillBlockNumber datum) = true) /\
    (forall k v, In (k, v) lvl ->
       in_range (getMany_filter datum) k = true ->
       str_le (block (keyToDatum k)) (tillBlockNumber datum) = true ->
       exists r, In r out /\
         identity (id r) = identity (keyToDatum k) /\
         str_le (block (keyToDatum k)) (block (id r)) = true) /\
    NoDup (map (fun r => identity (id r)) out) /\
    ascending (map (fun r => datumToKey (id r)) out) = true.
Proof.
  intros Hord Hwf Hne.
  destruct (getMany_filter_range datum) as (lo & hi & Hf).
  unfold getMany. rewrite Hf in *.
  set (till := tillBlockNumber datum) in *.
  pose proof (iterator_range_sorted lvl lo hi Hord) as Hss.
  assert (Hscan : forall kv, In kv (iterator lvl (range lo hi)) ->
            In kv lvl /\ in_range (range lo hi) (fst kv) = true).
  { intros kv Hkv. rewrite iterator_range in Hkv.
    now apply filter_In in Hkv. }
  assert (Hback : forall kv, In kv lvl ->
            in_range (range lo hi) (fst kv) = true ->
            In kv (iterator lvl (range lo hi))).
  { intros kv H1 H2. rewrite iterator_range. now apply filter_In. }
  destruct (iterator lvl (range lo hi)) as [|[k0 v0] iter] eqn:Es;
    [congruence|].
  assert (Hwk : forall k v, In (k, v) ((k0, v0) :: iter) -> wf_key k = true).
  { intros k v Hin. apply Hscan in Hin. destruct Hin as [Hin _].
    now apply well_formed_In with lvl v. }
  assert (Hw : Forall (fun k => wf_key k = true) (k0 :: keys iter)).
  { apply Forall_forall. intros k Hk.
    change (k0 :: keys iter) with (keys ((k0, v0) :: iter)) in Hk.
    apply in_map_iff in Hk. destruct Hk as ([k' v'] & <- & Hin).
    now apply (Hwk k' v'). }
  cbn [keys map fst] in Hss.
  destruct (loop_selection till iter (keyToDatum k0) k0 v0 eq_refl Hss Hw)
    as (sel & Hout & Hincl & Hso & Hnd & Hok).
  change (mkReturnValue (keyToDatum k0) v0) with (dec (k0, v0)).
  exists (map dec sel). split; [now rewrite Hout|].
  split; [|split; [|split]].
  - intros r Hr. apply in_map_iff in Hr. destruct Hr as ([k v] & <- & Hkv).
    pose proof (Hincl _ Hkv) as Hin.
    rewrite Forall_forall in Hok. specialize (Hok _ Hkv).
    rewrite within_block in Hok by eauto.
    split; [|exact Hok].
    exists k. destruct (Hscan _ Hin) as [H1 H2]. auto.
  - intros k v Hin Hr Hle.
    pose proof (Hback (k, v) Hin Hr) as Hkv.
    assert (Hwi : within till (k, v) = true).
    { rewrite within_block by eauto. exact Hle. }
    destruct (loop_complete till iter (keyToDatum k0) k0 v0 eq_refl Hss
                (k, v) Hkv Hwi) as ([k' v'] & Hin' & Hout' & Hg & Hle').
    exists (dec (k', v')). split; [now rewrite <- Hout|].
    unfold group_of in Hg. cbn [fst dec id] in *.
    split.
    + apply idPrefix_identity; eauto.
    + apply str_le_iff. rewrite <- same_group_compare; eauto.
      now apply str_le_iff.
  - rewrite map_map.
    apply NoDup_map_coarser with (f := group_of); [|exact Hnd].
    intros x y. unfold group_of. cbn [dec id]. apply identity_idPrefix.
  - rewrite map_map.
    replace (map (fun x => datumToKey (id (dec x))) sel) with (keys sel).
    + now apply ascending_sorted.
    + unfold keys. apply map_ext_in. intros [k v] Hkv. cbn [dec id fst].
      symmetry. apply datumToKey_keyToDatum. eauto.
Qed.

(** X12: whatever the block numbers look like, over an ascending store of
    four-segment keys a [getMany] whose range is not empty yields stored
    versions of the range, each byte-wise within the cutoff, at most one
    per (chainId, address, tokenId) and in ascending key order; and every
    stored version of the range that is byte-wise within the cutoff has its
    token represented by an entry whose block number is byte-wise at least
    as high. *)
Theorem getMany_yields_one_stored_version_per_token
    (lvl : Level Track) (datum : Datum) :
  ordered lvl -> well_formed lvl ->
  iterator lvl (getMany_filter datum) <> [] ->
  exists out,
    getMany lvl datum = Ok out /\
    (forall r, In r out ->
       (exists k, In (k, value r) lvl /\
                  in_range (getMany_filter datum) k = true /\
                  id r = keyToDatum k) /\
       str_le (block (id r)) (tillBlockNumber datum) = true) /\
    (forall k v, In (k, v) lvl ->
       in_range (getMany_filter datum) k = true ->
       str_le (block (keyToDatum k)) (tillBlockNumber datum) = true ->
       exists r, In r out /\
         identity (id r) = identity (keyToDatum k) /\
         str_le (block (keyToDatum k)) (block (id r)) = true) /\
    NoDup (map (fun r => identity (id r)) out) /\
    ascending (map (fun r => datumToKey (id r)) out) = true.
Proof. apply getMany_selection. Qed.

Lemma getMany_yields_one_stored_version_per_token_witness :
  exists out,
    getMany (level rollover_db) (by_contract "1" "0x01" None) = Ok out /\
    NoDup (map (fun r => identity (id r)) out).
Proof.
  destruct (getMany_yields_one_stored_version_per_token (level rollover_db)
              (by_contract "1" "0x01" None))
    as (out & Hout & _ & _ & Hnd & _).
  - vm_compute. reflexivity.
  - vm_compute. reflexivity.
  - vm_compute. discriminate.
  - exists out. split; assumption.
Defined.

Lemma getMany_loop_sound (till : string) (iter : list (string * Track)) :
  forall (lastId : Datum) (res r : ReturnValue),
    In r (getMany_loop till lastId res iter) ->
    r = res \/ exists kv, In kv iter /\ r = dec kv.
Proof.
  induction iter as [|[k v] iter IH]; intros lastId res r; simpl.
  - unfold emit. destruct (js_le _ till); [|intros []].
    intros [<- | []]. now left.
  - destruct (negb _).
    + intros H. apply in_app_or in H. destruct H as [H | H].
      * unfold emit in H. destruct (js_le _ till); [|destruct H].
        destruct H as [<- | []]. now left.
      * right. destruct (IH _ _ _ H) as [-> | (kv & Hkv & ->)].
        -- exists (k, v). split; [now left | reflexivity].
        -- exists kv. split; [now right | reflexivity].
    + destruct (js_le _ till); intros H.
      * right. destruct (IH _ _ _ H) as [-> | (kv & Hkv & ->)].
        -- exists (k, v). split; [now left | reflexivity].
        -- exists kv. split; [now right | reflexivity].
      * destruct (IH _ _ _ H) as [-> | (kv & Hkv & ->)]; [now left|].
        right. exists kv. split; [now right | reflexivity].
Qed.

Lemma getMany_from_scan (lvl : Level Track) (datum : Datum)
    (out : list ReturnValue) (r : ReturnValue) :
  getMany lvl datum = Ok out -> In r out ->
  exists k, In (k, value r) lvl /\ id r = keyToDatum k /\
    in_range (getMany_filter datum) k = true.
Proof.
  unfold getMany.
  assert (Hit : forall kv, In kv (iterator lvl (getMany_filter datum)) ->
                  In kv lvl /\ in_range (getMany_filter datum) (fst kv) = true).
  { intros kv. destruct (getMany_filter_range datum) as (lo & hi & ->).
    rewrite iterator_range. apply filter_In. }
  destruct (iterator lvl (getMany_filter datum)) as [|[k0 v0] iter];
    [discriminate|].
  intros H Hr. injection H as <-.
  apply getMany_loop_sound in Hr.
  assert (Hkv : exists kv, In kv ((k0, v0) :: iter) /\ r = dec kv).
  { destruct Hr as [-> | (kv & Hkv & ->)].
    - exists (k0, v0). split; [now left | reflexivity].
    - exists kv. split; [now right | reflexivity]. }
  destruct Hkv as ([k v] & Hkv & ->).
  destruct (Hit _ Hkv) as [H1 H2]. exists k. auto.
Qed.

(** X13: [getMany] stays inside the prefix it was asked for, field by
    field and not by substring: every entry it yields has the chainId of
    the query, and the address of the query when one is given (another
    contract whose address merely starts the same way is never mixed in). *)
Theorem getMany_stays_in_its_prefix
    (lvl : Level Track) (c : string) (a t cutoff : option string)
    (out : list ReturnValue) (r : ReturnValue) :
  sf c ->
  getMany lvl (mkDatum (Some c) a t cutoff) = Ok out -> In r out ->
  chainId (id r) = Some c /\
  (forall a', a = Some a' -> a' <> "" -> sf a' -> address (id r) = Some a').
Proof.
  intros Hc Hout Hr.
  destruct (getMany_from_scan lvl _ out r Hout Hr) as (k & _ & Hid & Hrange).
  rewrite Hid. unfold getMany_filter in Hrange.
  cbn [chainId address tpl] in Hrange.
  destruct (truthy a) eqn:Ea.
  - destruct a as [a'|]; [|discriminate]. cbn [tpl] in Hrange.
    unfold in_range in Hrange. simpl gte in Hrange. simpl lte in Hrange.
    apply andb_true_iff in Hrange. destruct Hrange as [Hlo Hhi].
    assert (Hp : exists z, k = (c ++ "/" ++ a' ++ "/") ++ z).
    { apply (between_prefix _ "" "~").
      - now rewrite append_nil_r.
      - rewrite append_assoc. simpl. rewrite append_assoc. exact Hhi. }
    destruct Hp as [z ->].
    assert (Hs : forall (Ha : sf a'),
              split "/" ((c ++ "/" ++ a' ++ "/") ++ z) = c :: a' :: split "/" z).
    { intros Ha.
      replace ((c ++ "/" ++ a' ++ "/") ++ z)
        with (c ++ String "/" (a' ++ String "/" z)).
      - now rewrite !split_app.
      - repeat (rewrite append_assoc; simpl). reflexivity. }
    split.
    + unfold keyToDatum.
      replace ((c ++ "/" ++ a' ++ "/") ++ z)
        with (c ++ String "/" ((a' ++ "/") ++ z)).
      * now rewrite split_app.
      * repeat (rewrite append_assoc; simpl). reflexivity.
    + intros a0 E Hne Ha. injection E as <-.
      unfold keyToDatum. now rewrite Hs.
  - unfold in_range in Hrange. simpl gte in Hrange. simpl lte in Hrange.
    apply andb_true_iff in Hrange. destruct Hrange as [Hlo Hhi].
    assert (Hp : exists z, k = (c ++ "/") ++ z).
    { apply (between_prefix _ "" "~").
      - now rewrite append_nil_r.
      - rewrite append_assoc. exact Hhi. }
    destruct Hp as [z ->]. split.
    + unfold keyToDatum.
      replace ((c ++ "/") ++ z) with (c ++ String "/" z).
      * now rewrite split_app.
      * rewrite append_assoc. reflexivity.
    + intros a0 E Hne _. subst a. simpl in Ea.
      destruct (String.eqb a0 "") eqn:E0; [|discriminate].
      apply String.eqb_eq in E0. contradiction.
Qed.


Lemma getMany_stays_in_its_prefix_witness :
  chainId (id (mkReturnValue (datum_of "1" "0xb8" "1" "110") "A")) = Some "1" /\
  getMany (level neighbours_db) (by_contract "1" "0xb8" None) =
    Ok [ mkReturnValue (datum_of "1" "0xb8" "1" "110") "A" ].
Proof.
  assert (H : getMany (level neighbours_db) (by_contract "1" "0xb8" None) =
              Ok [ mkReturnValue (datum_of "1" "0xb8" "1" "110") "A" ]).
  { vm_compute. reflexivity. }
  split; [|exact H].
  apply (getMany_stays_in_its_prefix (level neighbours_db) "1" (Some "0xb8")
           None None _ _ eq_refl H).
  now left.
Defined.

Lemma below_tilde (x y : string) :
  str_lt x "~" = true -> str_le (x ++ String "/" y) "~" = true.
Proof.
  unfold str_lt, str_le, String.ltb, String.leb.
  destruct x as [|ch x]; simpl; [reflexivity|].
  destruct (Ascii.compare ch "~") eqn:E; try discriminate; [|reflexivity].
  destruct x; discriminate.
Qed.

Lemma digits_lt_tilde (z : string) : all_digits z = true -> str_lt z "~" = true.
Proof.
  destruct z as [|ch z]; [reflexivity|]. simpl. intros H.
  apply andb_true_iff in H. destruct H as [Hc _].
  unfold str_lt, String.ltb. simpl.
  destruct ch as [[|] [|] [|] [|] [|] [|] [|] [|]]; try discriminate Hc; reflexivity.
Qed.

(** X14: a query by chain and contract covers every token of the contract
    whose id sorts before the upper bound "~" of the scan (every decimal id
    does): when a version of such a token is stored with a block number
    byte-wise within the cutoff, [getMany] returns a sequence that holds an
    entry for that token, with a block number byte-wise at least as high. *)
Theorem getMany_covers_the_tokens_of_the_contract
    (lvl : Level Track) (c a t b : string) (v : Track) (cutoff : option string) :
  ordered lvl -> well_formed lvl ->
  sf c -> sf a /\ a <> "" -> sf t -> sf b ->
  str_lt t "~" = true ->
  In (datumToKey (datum_of c a t b), v) lvl ->
  str_le b (tillBlockNumber (by_contract c a cutoff)) = true ->
  exists out r,
    getMany lvl (by_contract c a cutoff) = Ok out /\ In r out /\
    identity (id r) = (Some c, Some a, Some t) /\
    str_le b (block (id r)) = true.
Proof.
  intros Ho Hw Hc [Ha Hne] Ht Hb Htil Hin Hle.
  set (K := datumToKey (datum_of c a t b)) in *.
  assert (HK : K = (c ++ "/" ++ a ++ "/") ++ t ++ String "/" b).
  { unfold K, datumToKey, datum_of.
    cbn [chainId address tokenId blockNumber or_empty].
    repeat (rewrite append_assoc; simpl). reflexivity. }
  assert (Hd : keyToDatum K = datum_of c a t b)
    by (now apply keyToDatum_datumToKey).
  assert (Hr : in_range (getMany_filter (by_contract c a cutoff)) K = true).
  { unfold getMany_filter, by_contract. cbn [chainId address tpl].
    rewrite truthy_Some by assumption.
    unfold in_range, range. cbn [gte lte].
    apply andb_true_iff. split.
    - rewrite HK. apply prefix_le.
    - apply str_le_iff. rewrite HK.
      replace (c ++ "/" ++ a ++ "/~") with ((c ++ "/" ++ a ++ "/") ++ "~").
      + rewrite compare_app. apply str_le_iff. now apply below_tilde.
      + repeat (rewrite append_assoc; simpl). reflexivity. }
  assert (Hne' : iterator lvl (getMany_filter (by_contract c a cutoff)) <> []).
  { destruct (getMany_filter_range (by_contract c a cutoff)) as (lo & hi & Hf).
    rewrite Hf in *. rewrite iterator_range. intros E.
    assert (H : In (K, v) []) by (rewrite <- E; now apply filter_In).
    destruct H. }
  destruct (getMany_selection lvl (by_contract c a cutoff) Ho Hw Hne')
    as (out & Hout & _ & Hcov & _).
  destruct (Hcov K v Hin Hr) as (r & Hr1 & Hr2 & Hr3).
  { rewrite Hd. exact Hle. }
  exists out, r. split; [exact Hout|]. split; [exact Hr1|].
  rewrite Hd in Hr2, Hr3. split; [exact Hr2 | exact Hr3].
Qed.

Lemma getMany_covers_the_tokens_of_the_contract_witness :
  exists out r,
    getMany (level scenario_db) (by_contract "1" "0xb8" (Some "125")) = Ok out /\
    In r out /\ identity (id r) = (Some "1", Some "0xb8", Some "2").
Proof.
  destruct (getMany_covers_the_tokens_of_the_contract (level scenario_db)
              "1" "0xb8" "2" "110" "B" (Some "125"))
    as (out & r & H1 & H2 & H3 & _).
  - vm_compute. reflexivity.
  - vm_compute. reflexivity.
  - reflexivity.
  - split; [reflexivity | discriminate].
  - reflexivity.
  - reflexivity.
  - reflexivity.
  - vm_compute. right. now left.
  - vm_compute. reflexivity.
  - exists out, r. split; [exact H1|]. split; [exact H2 | exact H3].
Defined.

(** * Resolving what changed *)

Lemma promise_all_present (lvl : Level Track) (ids : list string) :
  (forall i, In i ids -> level_get lvl i <> None) ->
  exists rs, promise_all (map (fill_one lvl) ids) = Ok rs /\
    map id rs = map keyToDatum ids /\
    Forall2 (fun i r => level_get lvl i = Some (value r)) ids rs.
Proof.
  induction ids as [|i ids IH]; intros H; simpl.
  - exists []. repeat split. constructor.
  - destruct IH as (rs & Hrs & Hid & Hv).
    { intros j Hj. apply H. now right. }
    unfold fill_one at 1. unfold track_get.
    destruct (level_get lvl i) as [v|] eqn:E.
    + rewrite Hrs. exists (mkReturnValue (keyToDatum i) v :: rs).
      repeat split.
      * simpl. now rewrite Hid.
      * constructor; [exact E | exact Hv].
    + exfalso. apply (H i); [now left | exact E].
Qed.

Lemma promise_all_absent (lvl : Level Track) (ids : list string) (i : string) :
  In i ids -> level_get lvl i = None ->
  promise_all (map (fill_one lvl) ids) = Throw (LEVEL_NOT_FOUND "Entry not found").
Proof.
  induction ids as [|j ids IH]; intros Hin Hnone; [destruct Hin|].
  simpl. unfold fill_one at 1. unfold track_get.
  destruct (level_get lvl j) as [v|] eqn:E; [|reflexivity].
  destruct Hin as [-> | Hin]; [congruence|].
  now rewrite (IH Hin Hnone).
Qed.

(** X15: [getIdsChanged_fill] is all or nothing.  An error of
    [getIdsChanged] is passed on; otherwise, when every changed key has its
    primary entry the call returns, in the same order, each key decoded
    together with the payload stored under it, and when a single changed
    key has no primary entry the whole call fails with Level's not-found
    error. *)
Theorem getIdsChanged_fill_all_or_nothing
    (lvl : Level Track) (changes : Level string)
    (from : string) (to : option string) :
  match getIdsChanged changes from to with
  | Throw e => getIdsChanged_fill lvl changes from to = Throw e
  | Ok ids =>
      ((forall i, In i ids -> level_get lvl i <> None) ->
       exists rs,
         getIdsChanged_fill lvl changes from to = Ok rs /\
         map id rs = map keyToDatum ids /\
         Forall2 (fun i r => level_get lvl i = Some (value r)) ids rs) /\
      (forall i, In i ids -> level_get lvl i = None ->
       getIdsChanged_fill lvl changes from to =
       Throw (LEVEL_NOT_FOUND "Entry not found"))
  end.
Proof.
  unfold getIdsChanged_fill.
  destruct (getIdsChanged changes from to) as [ids|e]; [|reflexivity].
  split.
  - apply promise_all_present.
  - apply promise_all_absent.
Qed.

Lemma getIdsChanged_ids (changes : Level string) (from : string)
    (to : option string) (ids : list string) (i : string) :
  getIdsChanged changes from to = Ok ids -> In i ids ->
  exists k, In k (keys changes) /\ i = marker_id k.
Proof.
  unfold getIdsChanged. cbv zeta.
  destruct (encodeNumber from) as [lo|]; [|discriminate].
  destruct (encodeNumber (nullish to from)) as [hi|]; [|discriminate].
  intros H Hin. injection H as <-.
  apply in_map_iff in Hin. destruct Hin as ([n i'] & <- & Hin).
  rewrite getIdsChanged_map_keys in Hin.
  destruct (collect_from _ [] n i' Hin) as [[] | (k & Hk & _ & ->)].
  exists k. apply window_In in Hk. split; [apply Hk | reflexivity].
Qed.

Lemma insert_keeps_linked (datum : Datum) (data : Track) (db : DB) :
  linked db -> valid_datum datum -> linked (after (insert datum data) db).
Proof.
  intros Hl (c & a & t & b & -> & Hc & Ha & Ht & Hb & Hlen).
  destruct (marker_names_version c a t b Hc Ha Ht Hb Hlen) as (ck & Hck & _ & Hid).
  unfold linked. rewrite insert_level, insert_changeIndex.
  unfold datum_of in *. rewrite Hck.
  intros k Hk. unfold keys in Hk. apply in_map_iff in Hk.
  destruct Hk as ([k' v'] & <- & Hin). cbn [fst].
  set (K := datumToKey (mkDatum (Some c) (Some a) (Some t) (Some b))) in *.
  destruct (string_dec (marker_id k') K) as [E | E].
  - rewrite E, level_get_put_same. discriminate.
  - rewrite level_get_put_other by exact E.
    apply level_put_In in Hin. destruct Hin as [H | Hin].
    + injection H as -> _. contradiction.
    + apply Hl. unfold keys. apply in_map_iff. now exists (k', v').
Qed.

Lemma run_inserts_invariants (vs : list (Datum * Track)) :
  Forall (fun v => valid_datum (fst v)) vs ->
  forall db, linked db -> markers_ok (changeIndex db) ->
    linked (run_inserts vs db) /\ markers_ok (changeIndex (run_inserts vs db)).
Proof.
  unfold run_inserts.
  induction 1 as [|v vs Hv _ IH]; intros db Hl Hm; simpl; [now split|].
  apply IH.
  - now apply insert_keeps_linked.
  - destruct Hv as (c & a & t & b & E & Hc & Ha & Ht & Hb & Hlen).
    rewrite E. now apply insert_keeps_markers.
Qed.

(** X16: a database filled by inserts of well-formed data can always be
    resolved.  Starting from the empty database such inserts keep every
    marker a ten-digit marker that points at a stored version, and on a
    database in that state [getIdsChanged_fill] with bounds of at most ten
    characters succeeds and returns one entry per changed key, each with
    the payload stored under that key. *)
Theorem fill_succeeds_after_inserts :
  (forall vs : list (Datum * Track),
     Forall (fun v => valid_datum (fst v)) vs ->
     linked (run_inserts vs empty_db) /\
     markers_ok (changeIndex (run_inserts vs empty_db))) /\
  (forall (db : DB) (from : string) (to : option string),
     linked db -> markers_ok (changeIndex db) ->
     String.length from <= MAX_LENGTH ->
     String.length (nullish to from) <= MAX_LENGTH ->
     exists ids rs,
       getIdsChanged (changeIndex db) from to = Ok ids /\
       getIdsChanged_fill (level db) (changeIndex db) from to = Ok rs /\
       map id rs = map keyToDatum ids /\
       Forall2 (fun i r => level_get (level db) i = Some (value r)) ids rs).
Proof.
  split.
  - intros vs Hvs. apply run_inserts_invariants; [exact Hvs | | reflexivity].
    intros k [].
  - intros db from to Hl _ Hf Ht.
    assert (E : exists ids, getIdsChanged (changeIndex db) from to = Ok ids).
    { unfold getIdsChanged. cbv zeta.
      rewrite (encodeNumber_ok from Hf), (encodeNumber_ok _ Ht). eauto. }
    destruct E as [ids E]. exists ids.
    destruct (promise_all_present (level db) ids) as (rs & Hrs & Hid & Hv).
    { intros i Hi.
      destruct (getIdsChanged_ids _ _ _ _ _ E Hi) as (k & Hk & ->).
      now apply Hl. }
    exists rs. split; [exact E|]. split; [|split; assumption].
    unfold getIdsChanged_fill. now rewrite E.
Qed.

Lemma fill_succeeds_after_inserts_witness :
  exists rs,
    getIdsChanged_fill (level scenario_db) (changeIndex scenario_db)
      "100" (Some "125") = Ok rs /\
    map id rs = map keyToDatum [ "1/0xb8/1/110"; "1/0xb8/2/120" ].
Proof.
  assert (Hvs : Forall (fun v : Datum * Track => valid_datum (fst v))
            [ (datum_of "1" "0xb8" "1" "110", "A");
              (datum_of "1" "0xb8" "2" "110", "B");
              (datum_of "1" "0xb8" "2" "120", "B2");
              (datum_of "1" "0xb8" "3" "130", "C") ]).
  { repeat constructor; apply valid_datum_of; try reflexivity;
      unfold MAX_LENGTH; simpl; lia. }
  destruct (proj2 fill_succeeds_after_inserts scenario_db "100" (Some "125"))
    as (ids & rs & Hids & Hrs & Hid & _).
  - apply (proj1 fill_succeeds_after_inserts _ Hvs).
  - apply (proj1 fill_succeeds_after_inserts _ Hvs).
  - unfold MAX_LENGTH. simpl. lia.
  - unfold MAX_LENGTH. simpl. lia.
  - exists rs. split; [exact Hrs|].
    vm_compute in Hids. injection Hids as <-. exact Hid.
Defined.

(** * Rebuilding, in full *)

Lemma iterator_no_options {V : Type} (db : Level V) :
  iterator db no_options = db.
Proof.
  unfold iterator, no_options, in_range. simpl.
  induction db as [|kv db IH]; simpl; [reflexivity | now rewrite IH].
Qed.

Lemma wf_key_change_key (k : string) :
  wf_key k = true ->
  (String.length (block (keyToDatum k)) <= MAX_LENGTH ->
   exists ck, datumToChangeKey (keyToDatum k) = Ok ck) /\
  (MAX_LENGTH < String.length (block (keyToDatum k)) ->
   datumToChangeKey (keyToDatum k) =
   Throw (Error "Database cannot encode number greater than 10 digits")).
Proof.
  intros W. destruct (keyToDatum_wf k W) as (c & a & t & b & -> & _).
  unfold datumToChangeKey, block. cbn [blockNumber or_empty]. split.
  - intros H. rewrite (encodeNumber_ok b H). eauto.
  - intros H. unfold encodeNumber.
    destruct (Nat.ltb_spec MAX_LENGTH (String.length b)); [reflexivity | lia].
Qed.

Lemma createChangeIndex_loop_all (iter : list (string * Track)) :
  forall (count : nat) (db : DB),
    (forall kv, In kv iter ->
       exists ck, datumToChangeKey (keyToDatum (fst kv)) = Ok ck) ->
    fst (createChangeIndex_loop iter count db) = Ok (count + List.length iter) /\
    (forall kv ck, In kv iter ->
       datumToChangeKey (keyToDatum (fst kv)) = Ok ck -> In ck (written iter)).
Proof.
  induction iter as [|[k v] iter IH]; intros count db H; simpl.
  - split; [f_equal; lia | intros kv ck []].
  - destruct (H (k, v) (or_introl eq_refl)) as [ck0 E0]. cbn [fst] in E0.
    unfold bind at 1. unfold lift at 1. rewrite E0.
    unfold bind at 1. unfold change_put at 1.
    destruct (IH (S count)
                {| level := level db;
                   changeIndex := level_put (changeIndex db) ck0 "";
                   journal := (journal db ++ [PutChange ck0 ""])%list |})
      as [Hr Hw].
    { intros kv Hkv. apply H. now right. }
    split.
    + rewrite Hr. f_equal. lia.
    + intros kv ck [<- | Hkv] E.
      * cbn [fst] in E. rewrite E0 in E. injection E as <-. now left.
      * right. now apply (Hw kv).
Qed.

Lemma createChangeIndex_loop_long (iter : list (string * Track)) :
  forall (count : nat) (db : DB),
    (forall kv, In kv iter -> wf_key (fst kv) = true) ->
    (exists kv, In kv iter /\
       MAX_LENGTH < String.length (block (keyToDatum (fst kv)))) ->
    fst (createChangeIndex_loop iter count db) =
    Throw (Error "Database cannot encode number greater than 10 digits").
Proof.
  induction iter as [|[k v] iter IH]; intros count db Hw (kv & Hin & Hlong);
    [destruct Hin|].
  simpl. unfold bind at 1. unfold lift at 1.
  assert (Wk : wf_key k = true) by (apply (Hw (k, v)); now left).
  destruct (wf_key_change_key k Wk) as [Hok Hbad].
  destruct (Nat.le_gt_cases (String.length (block (keyToDatum k))) MAX_LENGTH)
    as [Hle | Hgt].
  - destruct (Hok Hle) as [ck E]. rewrite E.
    unfold bind at 1. unfold change_put at 1.
    apply IH.
    + intros kv' Hkv'. apply Hw. now right.
    + destruct Hin as [<- | Hin]; [cbn [fst] in Hlong; lia|].
      now exists kv.
  - now rewrite (Hbad Hgt).
Qed.

(** X17: over a tracks store of four-segment keys whose block numbers have
    at most ten characters, [createChangeIndex] runs to the end, counts
    every stored version, leaves the tracks store as it is, and afterwards
    the change index holds the marker of every stored version. *)
Theorem createChangeIndex_marks_every_version (db : DB) :
  well_formed (level db) ->
  (forall k v, In (k, v) (level db) ->
     String.length (block (keyToDatum k)) <= MAX_LENGTH) ->
  fst (createChangeIndex db) = Ok (List.length (level db)) /\
  level (after createChangeIndex db) = level db /\
  (forall k v, In (k, v) (level db) ->
     exists ck, datumToChangeKey (keyToDatum k) = Ok ck /\
       level_get (changeIndex (after createChangeIndex db)) ck = Some "").
Proof.
  intros Hw Hlen. unfold after, createChangeIndex.
  rewrite iterator_no_options.
  assert (Hall : forall kv, In kv (level db) ->
            exists ck, datumToChangeKey (keyToDatum (fst kv)) = Ok ck).
  { intros [k v] Hin. cbn [fst].
    apply (wf_key_change_key k); [now apply well_formed_In with (level db) v|].
    now apply (Hlen k v). }
  destruct (createChangeIndex_loop_all (level db) 0 db Hall) as [Hr Hwr].
  destruct (createChangeIndex_loop_spec (level db) 0 db) as [Hl Hc].
  split; [exact Hr|]. split; [exact Hl|].
  intros k v Hin. destruct (Hall (k, v) Hin) as [ck E]. cbn [fst] in E.
  exists ck. split; [exact E|].
  rewrite Hc, put_all_get.
  destruct (in_dec string_dec ck (written (level db))) as [_ | Hno];
    [reflexivity|].
  exfalso. apply Hno. now apply (Hwr (k, v)).
Qed.

Lemma createChangeIndex_marks_every_version_witness :
  fst (createChangeIndex scenario_db) = Ok 4.
Proof.
  apply (createChangeIndex_marks_every_version scenario_db).
  - vm_compute. reflexivity.
  - intros k v H. vm_compute in H.
    repeat (destruct H as [H | H];
            [injection H as <- <-; unfold MAX_LENGTH; simpl; lia|]).
    destruct H.
Defined.

(** X18: one stored version whose block number has more than ten
    characters makes the whole rebuild fail: over a tracks store of
    four-segment keys [createChangeIndex] then throws the encoding error
    instead of returning a count. *)
Theorem createChangeIndex_fails_on_a_long_block_number
    (db : DB) (k : string) (v : Track) :
  well_formed (level db) ->
  In (k, v) (level db) ->
  MAX_LENGTH < String.length (block (keyToDatum k)) ->
  fst (createChangeIndex db) =
  Throw (Error "Database cannot encode number greater than 10 digits").
Proof.
  intros Hw Hin Hlong. unfold createChangeIndex.
  rewrite iterator_no_options.
  apply createChangeIndex_loop_long.
  - intros [k' v'] Hkv. cbn [fst]. now apply well_formed_In with (level db) v'.
  - now exists (k, v).
Qed.

Lemma createChangeIndex_fails_on_a_long_block_number_witness :
  fst (createChangeIndex
         (after (insert (datum_of "1" "0x13" "5" "12345678901") "data")
                scenario_db)) =
  Throw (Error "Database cannot encode number greater than 10 digits").
Proof.
  apply (createChangeIndex_fails_on_a_long_block_number _
           "1/0x13/5/12345678901" "data").
  - vm_compute. reflexivity.
  - vm_compute. now left.
  - vm_compute. lia.
Defined.

(** * The window of [getIdsChanged], in numbers *)

(** X19: the window of [getIdsChanged] is the numeric one.  For decimal
    bounds and a decimal block number of at most ten digits each, and a
    chainId that sorts before "~", the marker that [insert] writes for the
    block lies in the range scanned for (from, to) exactly when
    from <= block <= to as numbers. *)
Theorem getIdsChanged_window_is_numeric (c a t b from to : string) :
  all_digits b = true -> String.length b <= MAX_LENGTH ->
  all_digits from = true -> String.length from <= MAX_LENGTH ->
  all_digits to = true -> String.length to <= MAX_LENGTH ->
  str_lt c "~" = true ->
  exists ck lo hi,
    datumToChangeKey (datum_of c a t b) = Ok ck /\
    encodeNumber from = Ok lo /\ encodeNumber to = Ok hi /\
    in_window lo hi ck =
    N.leb (block_value from) (block_value b) &&
    N.leb (block_value b) (block_value to).
Proof.
  intros Db Lb Df Lf Dt Lt Hc.
  set (pb := padStart b MAX_LENGTH "0").
  set (lo := padStart from MAX_LENGTH "0").
  set (hi := padStart to MAX_LENGTH "0").
  set (rest := a ++ "/" ++ t).
  exists (pb ++ "/" ++ c ++ "/" ++ rest), lo, hi.
  split.
  { unfold datumToChangeKey, datum_of. cbn [blockNumber chainId address tokenId tpl].
    now rewrite (encodeNumber_ok b Lb). }
  split; [now apply encodeNumber_ok|]. split; [now apply encodeNumber_ok|].
  assert (Hpad : forall x, all_digits x = true -> String.length x <= MAX_LENGTH ->
            all_digits (padStart x MAX_LENGTH "0") = true /\
            String.length (padStart x MAX_LENGTH "0") = MAX_LENGTH /\
            block_value (padStart x MAX_LENGTH "0") = block_value x).
  { intros x Dx Lx. split; [now apply zeros_digits|].
    split; [now apply padStart_length | now apply zeros_value]. }
  destruct (Hpad b Db Lb) as (Dpb & Lpb & Vpb).
  destruct (Hpad from Df Lf) as (Dlo & Llo & Vlo).
  destruct (Hpad to Dt Lt) as (Dhi & Lhi & Vhi).
  fold pb in Dpb, Lpb, Vpb. fold lo in Dlo, Llo, Vlo. fold hi in Dhi, Lhi, Vhi.
  unfold in_window. f_equal.
  - pose proof (digits_compare lo pb Dlo Dpb (eq_trans Llo (eq_sym Lpb))) as Hcmp.
    rewrite Vlo, Vpb in Hcmp.
    unfold str_le, String.leb, N.leb. rewrite <- Hcmp.
    destruct (String.compare lo pb) eqn:E.
    + apply String.compare_eq_iff in E. rewrite E, compare_app.
      cbn [String.append String.compare]. rewrite ascii_compare_refl.
      destruct (c ++ String "/" rest); reflexivity.
    + rewrite compare_app_same_length, E; [reflexivity | congruence | congruence].
    + rewrite compare_app_same_length, E; [reflexivity | congruence | congruence].
  - pose proof (digits_compare pb hi Dpb Dhi (eq_trans Lpb (eq_sym Lhi))) as Hcmp.
    rewrite Vpb, Vhi in Hcmp.
    unfold N.leb. rewrite <- Hcmp.
    destruct (String.compare pb hi) eqn:E.
    + apply String.compare_eq_iff in E. rewrite E.
      apply str_le_iff. rewrite compare_app.
      cbn [String.append String.compare]. rewrite ascii_compare_refl.
      apply str_le_iff. now apply below_tilde.
    + unfold str_le, String.leb.
      rewrite compare_app_same_length, E; [reflexivity | congruence | congruence].
    + unfold str_le, String.leb.
      rewrite compare_app_same_length, E; [reflexivity | congruence | congruence].
Qed.

Lemma getIdsChanged_window_is_numeric_witness :
  exists ck lo hi,
    datumToChangeKey (datum_of "1" "0xb8" "2" "120") = Ok ck /\
    encodeNumber "99" = Ok lo /\ encodeNumber "1000" = Ok hi /\
    in_window lo hi ck = true.
Proof.
  destruct (getIdsChanged_window_is_numeric "1" "0xb8" "2" "120" "99" "1000")
    as (ck & lo & hi & H1 & H2 & H3 & H4).
  - reflexivity.
  - unfold MAX_LENGTH. simpl. lia.
  - reflexivity.
  - unfold MAX_LENGTH. simpl. lia.
  - reflexivity.
  - unfold MAX_LENGTH. simpl. lia.
  - reflexivity.
  - exists ck, lo, hi. split; [exact H1|]. split; [exact H2|].
    split; [exact H3|]. rewrite H4. vm_compute. reflexivity.
Defined.

(** * Decoding a marker and encoding it again *)

Lemma string_of_uint_digits (d : Decimal.uint) :
  all_digits (NilEmpty.string_of_uint d) = true.
Proof. induction d; simpl; auto. Qed.

Lemma nzhead_length (d : Decimal.uint) :
  String.length (NilEmpty.string_of_uint (Decimal.nzhead d)) <=
  String.length (NilEmpty.string_of_uint d).
Proof. induction d; simpl; lia. Qed.

Lemma unorm_length (d : Decimal.uint) :
  String.length (NilEmpty.string_of_uint (Decimal.unorm d)) <=
  Nat.max 1 (String.length (NilEmpty.string_of_uint d)).
Proof.
  unfold Decimal.unorm. pose proof (nzhead_length d) as H.
  pose proof (Nat.le_max_l 1 (String.length (NilEmpty.string_of_uint d))) as H1.
  pose proof (Nat.le_max_r 1 (String.length (NilEmpty.string_of_uint d))) as H2.
  set (m := Nat.max 1 (String.length (NilEmpty.string_of_uint d))) in *.
  destruct (Decimal.nzhead d); simpl in H |- *; lia.
Qed.

Lemma decodeNumber_digits (p : string) :
  all_digits p = true ->
  all_digits (decodeNumber p) = true /\
  String.length (decodeNumber p) <= Nat.max 1 (String.length p).
Proof.
  intros Dp. destruct (digits_uint p Dp) as (d & Hd & _).
  unfold decodeNumber, Number, toString. rewrite Hd. cbn [option_map].
  rewrite DecimalN.Unsigned.to_of. split.
  - apply string_of_uint_digits.
  - rewrite <- (NilEmpty.sus p d Hd). apply unorm_length.
Qed.

(** X20: the two codecs are inverse on markers as well: decoding a
    ten-digit block prefix gives a decimal number of at most ten digits
    with the same value, and encoding that number gives the prefix back. *)
Theorem encodeNumber_inverts_decodeNumber (p : string) :
  all_digits p = true -> String.length p = MAX_LENGTH ->
  all_digits (decodeNumber p) = true /\
  block_value (decodeNumber p) = block_value p /\
  encodeNumber (decodeNumber p) = Ok p.
Proof.
  intros Dp Lp. destruct (decodeNumber_digits p Dp) as [Dd Ld].
  rewrite Lp in Ld. change (Nat.max 1 MAX_LENGTH) with MAX_LENGTH in Ld.
  pose proof (decodeNumber_value p Dp) as Hv.
  split; [exact Dd|]. split; [exact Hv|].
  rewrite (encodeNumber_ok _ Ld). f_equal.
  apply String.compare_eq_iff. unfold padStart.
  rewrite digits_compare.
  - rewrite zeros_value, Hv by assumption. apply N.compare_refl.
  - now apply zeros_digits.
  - exact Dp.
  - rewrite append_length, repeat_char_length, Lp. lia.
Qed.

Lemma encodeNumber_inverts_decodeNumber_witness :
  encodeNumber (decodeNumber "0000000120") = Ok "0000000120".
Proof.
  apply (encodeNumber_inverts_decodeNumber "0000000120"); reflexivity.
Defined.

(** * After a delete *)

Lemma keyToDatum_injective (k k' : string) :
  wf_key k = true -> wf_key k' = true -> keyToDatum k = keyToDatum k' -> k = k'.
Proof.
  intros W W' E.
  rewrite <- (datumToKey_keyToDatum k W), <- (datumToKey_keyToDatum k' W').
  now rewrite E.
Qed.

Lemma In_firstn {A : Type} (n : nat) (l : list A) (x : A) :
  In x (firstn n l) -> In x l.
Proof.
  intros H. rewrite <- (firstn_skipn n l). apply in_or_app. now left.
Qed.

Lemma level_del_In {V : Type} (db : Level V) (key k : string) (v : V) :
  In (k, v) (level_del db key) -> In (k, v) db /\ k <> key.
Proof.
  unfold level_del. intros H. apply filter_In in H. destruct H as [Hin Hk].
  split; [exact Hin|]. simpl in Hk. intros ->.
  rewrite String.eqb_refl in Hk. discriminate.
Qed.

(** X21: a deleted version is gone from every read.  Over a tracks store
    of four-segment keys, after [del] of a datum with four slash-free
    fields neither [getOne], whatever identity and cutoff it is asked, nor
    [getMany], whatever the query, returns that datum again. *)
Theorem deleted_version_is_never_read
    (c a t b : string) (db : DB) (q : Datum) :
  well_formed (level db) -> sf c -> sf a -> sf t -> sf b ->
  (forall r, getOne (level (after (del (datum_of c a t b)) db)) q = Ok r ->
     id r <> datum_of c a t b) /\
  (forall out r,
     getMany (level (after (del (datum_of c a t b)) db)) q = Ok out ->
     In r out -> id r <> datum_of c a t b).
Proof.
  intros Hw Hc Ha Ht Hb. rewrite del_level.
  set (K := datumToKey (datum_of c a t b)).
  assert (WK : wf_key K = true) by (now apply wf_key_datumToKey).
  assert (HK : keyToDatum K = datum_of c a t b)
    by (now apply keyToDatum_datumToKey).
  assert (Hgone : forall k v, In (k, v) (level_del (level db) K) ->
            keyToDatum k <> datum_of c a t b).
  { intros k v Hin E. apply level_del_In in Hin. destruct Hin as [Hin Hne].
    apply Hne. apply keyToDatum_injective; auto.
    - now apply well_formed_In with (level db) v.
    - now rewrite HK. }
  split.
  - intros r Hr. unfold getOne in Hr.
    assert (Hhit : forall o, first_hit (level_del (level db) K) o = Ok r ->
              id r <> datum_of c a t b).
    { intros o. unfold first_hit.
      destruct (iterator (level_del (level db) K) o) as [|[k v] l] eqn:E;
        [discriminate|].
      intros H. injection H as <-. cbn [id].
      apply (Hgone k v).
      assert (Hin : In (k, v) (iterator (level_del (level db) K) o))
        by (rewrite E; now left).
      unfold iterator in Hin.
      assert (Hsub : forall l', In (k, v)
                (match limit o with Some n => firstn n l' | None => l' end) ->
                In (k, v) l').
      { intros l'. destruct (limit o); [apply In_firstn | auto]. }
      apply Hsub in Hin.
      destruct (reverse o); [apply in_rev in Hin|];
        apply filter_In in Hin; apply Hin. }
    destruct (truthy (chainId q) && truthy (address q) && truthy (tokenId q) &&
              truthy (blockNumber q)); [now apply Hhit in Hr|].
    destruct (truthy (chainId q) && truthy (address q) && truthy (tokenId q));
      [now apply Hhit in Hr | discriminate].
  - intros out r Hout Hr.
    destruct (getMany_from_scan _ _ _ _ Hout Hr) as (k & Hin & Hid & _).
    rewrite Hid. now apply (Hgone k (value r)).
Qed.

Lemma deleted_version_is_never_read_witness :
  getOne (level (after (del (datum_of "1" "0xb8" "2" "120")) scenario_db))
         (datum_of "1" "0xb8" "2" "120") =
  Ok (mkReturnValue (datum_of "1" "0xb8" "2" "110") "B") /\
  id (mkReturnValue (datum_of "1" "0xb8" "2" "110") "B") <>
  datum_of "1" "0xb8" "2" "120".
Proof.
  assert (H : getOne (level (after (del (datum_of "1" "0xb8" "2" "120")) scenario_db))
                (datum_of "1" "0xb8" "2" "120") =
              Ok (mkReturnValue (datum_of "1" "0xb8" "2" "110") "B")).
  { vm_compute. reflexivity. }
  split; [exact H|].
  apply (proj1 (deleted_version_is_never_read "1" "0xb8" "2" "120" scenario_db
                  (datum_of "1" "0xb8" "2" "120")
                  eq_refl eq_refl eq_refl eq_refl eq_refl) _ H).
Defined.
